(** * PPO controller of [src/PPO/PPO.py]: a shallow embedding

    The controller is embedded over an abstract scalar arithmetic, so that
    the same definitions run on exact rationals (the reading of the
    specification) and on IEEE-754 binary floating point (what Python and
    torch compute).  Tensors carry a shape and row-major data; the torch
    operations the controller calls are modelled with the errors they
    raise. *)

From Stdlib Require Import String Ascii DecimalString.
From Stdlib Require Import List Bool Arith ZArith QArith Qminmax Lia Lqa SpecFloat.
Import ListNotations.

Set Implicit Arguments.
Local Open Scope nat_scope.

(** ** Exceptions and the error monad of tensor code *)

(** The exceptions torch raises on the paths of [update]; each of them is a
    [RuntimeError] in Python. *)
Inductive exn : Type :=
| EmptyTensorList   (* torch.cat / torch.stack called on an empty list *)
| ZeroDimCat        (* torch.cat called on zero-dimensional tensors *)
| SizeMismatch.     (* sizes that cannot be broadcast, concatenated or stacked *)

Inductive result (A : Type) : Type :=
| Ok (a : A)
| Raise (e : exn).

Arguments Ok {A} a.
Arguments Raise {A} e.

Definition rbind {A B : Type} (r : result A) (k : A -> result B) : result B :=
  match r with
  | Ok a => k a
  | Raise e => Raise e
  end.

Definition rmap {A B : Type} (f : A -> B) (r : result A) : result B :=
  rbind r (fun a => Ok (f a)).

Declare Scope result_scope.
Delimit Scope result_scope with result.
Notation "x <- c ;; k" := (rbind c (fun x => k))
  (at level 61, c at next level, right associativity) : result_scope.
Notation "' pat <- c ;; k" := (rbind c (fun x => match x with pat => k end))
  (at level 61, pat pattern, c at next level, right associativity) : result_scope.

(** ** Scalars *)

(** Python [float] arithmetic, as used on the elements of [memory.rewards],
    on [gamma] and on [eps_clip].  [py_lit] reads a decimal literal. *)
Record PyFloat (D : Type) : Type := mkPyFloat {
  py_lit : Q -> D;
  py_add : D -> D -> D;
  py_sub : D -> D -> D;
  py_mul : D -> D -> D
}.

(** Arithmetic on the elements of a [float32] tensor. *)
Record Elem (F : Type) : Type := mkElem {
  e_zero : F;
  e_add : F -> F -> F;
  e_sub : F -> F -> F;
  e_mul : F -> F -> F;
  e_div : F -> F -> F;
  e_neg : F -> F;
  e_min : F -> F -> F;
  e_max : F -> F -> F;
  e_sqrt : F -> F;
  e_exp : F -> F;
  e_of_nat : nat -> F
}.

(** ** Lists *)

Definition map2 {A B C : Type} (f : A -> B -> C) (xs : list A) (ys : list B) : list C :=
  map (fun p => f (fst p) (snd p)) (combine xs ys).

(** [chunks k n xs] cuts the first [n] rows of [k] elements out of [xs]. *)
Fixpoint chunks {A : Type} (k n : nat) (xs : list A) : list (list A) :=
  match n with
  | O => []
  | S n' => firstn k xs :: chunks k n' (skipn k xs)
  end.

(** ** Shapes *)

Definition shape_t := list nat.

Definition numel (s : shape_t) : nat := fold_right Nat.mul 1 s.

Definition shape_eqb (s1 s2 : shape_t) : bool :=
  if list_eq_dec Nat.eq_dec s1 s2 then true else false.

(** Broadcasting of two shapes, trailing dimension first: two sizes are
    compatible when they are equal or one of them is 1; a missing
    dimension counts as 1. *)
Fixpoint broadcast_rev (r1 r2 : shape_t) : option shape_t :=
  match r1, r2 with
  | [], r => Some r
  | r, [] => Some r
  | a :: r1', b :: r2' =>
      match broadcast_rev r1' r2' with
      | None => None
      | Some r =>
          if a =? b then Some (a :: r)
          else if a =? 1 then Some (b :: r)
          else if b =? 1 then Some (a :: r)
          else None
      end
  end.

Definition broadcast_shapes (s1 s2 : shape_t) : option shape_t :=
  option_map (@rev nat) (broadcast_rev (rev s1) (rev s2)).

(** [pad_shape r s] gives [s] the rank [r] by leading dimensions of size 1. *)
Definition pad_shape (r : nat) (s : shape_t) : shape_t :=
  repeat 1 (r - length s) ++ s.

(** torch.squeeze(): every dimension of size 1 is removed. *)
Definition squeeze_shape (s : shape_t) : shape_t :=
  filter (fun d => negb (d =? 1)) s.

(** ** Tensors *)

Section Tensors.

Variable F : Type.
Variable E : Elem F.

Record tensor : Type := mkTensor {
  shape : shape_t;
  data : list F          (* row-major *)
}.

Definition wf_tensor (t : tensor) : Prop := length (data t) = numel (shape t).

(** A zero-dimensional tensor. *)
Definition scalar (x : F) : tensor := mkTensor [] [x].

(** torch.tensor(list of numbers): a one-dimensional tensor. *)
Definition tensor_of_list (xs : list F) : tensor := mkTensor [length xs] xs.

Definition tmap (f : F -> F) (t : tensor) : tensor :=
  mkTensor (shape t) (map f (data t)).

(** Row-major data of shape [src] expanded to shape [dst]; [src] has the
    rank of [dst] and each of its sizes is that of [dst] or 1. *)
Fixpoint expand_data (src dst : shape_t) (xs : list F) : list F :=
  match src, dst with
  | a :: src', b :: dst' =>
      let rows := map (expand_data src' dst') (chunks (numel src') a xs) in
      if a =? b then concat rows else concat (repeat (concat rows) b)
  | _, _ => xs
  end.

Definition expand_to (s : shape_t) (t : tensor) : list F :=
  expand_data (pad_shape (length s) (shape t)) s (data t).

(** An elementwise binary operation with broadcasting. *)
Definition broadcast2 (f : F -> F -> F) (t1 t2 : tensor) : result tensor :=
  match broadcast_shapes (shape t1) (shape t2) with
  | None => Raise SizeMismatch
  | Some s => Ok (mkTensor s (map2 f (expand_to s t1) (expand_to s t2)))
  end.

Definition tadd := broadcast2 (e_add E).
Definition tsub := broadcast2 (e_sub E).
Definition tmul := broadcast2 (e_mul E).
Definition tdiv := broadcast2 (e_div E).
Definition tmin := broadcast2 (e_min E).      (* torch.min(a, b) *)

Definition tneg : tensor -> tensor := tmap (e_neg E).
Definition texp : tensor -> tensor := tmap (e_exp E).   (* torch.exp *)

(** A tensor combined with a Python number. *)
Definition tadd_scalar (t : tensor) (c : F) : tensor := tmap (fun x => e_add E x c) t.
Definition tmul_scalar (c : F) (t : tensor) : tensor := tmap (fun x => e_mul E c x) t.

(** torch.clamp(t, lo, hi) = min(max(t, lo), hi). *)
Definition clamp1 (lo hi x : F) : F := e_min E (e_max E x lo) hi.
Definition clamp (t : tensor) (lo hi : F) : tensor := tmap (clamp1 lo hi) t.

(** Reductions over all elements. *)
Definition tsum (xs : list F) : F := fold_left (e_add E) xs (e_zero E).

Definition mean1 (xs : list F) : F :=
  e_div E (tsum xs) (e_of_nat E (length xs)).

(** Tensor.std() with its default correction of 1: the sum of squared
    deviations is divided by max(0, N - 1). *)
Definition std1 (xs : list F) : F :=
  let mu := mean1 xs in
  let dev2 := map (fun x => let d := e_sub E x mu in e_mul E d d) xs in
  e_sqrt E (e_div E (tsum dev2) (e_of_nat E (length xs - 1))).

Definition mean (t : tensor) : tensor := scalar (mean1 (data t)).
Definition std (t : tensor) : tensor := scalar (std1 (data t)).

(** torch.squeeze. *)
Definition squeeze (t : tensor) : tensor :=
  mkTensor (squeeze_shape (shape t)) (data t).

(** torch.cat(ts, 0). *)
Definition torch_cat (ts : list tensor) : result tensor :=
  match ts with
  | [] => Raise EmptyTensorList
  | t0 :: _ =>
      match shape t0 with
      | [] => Raise ZeroDimCat
      | _ :: tl0 =>
          if forallb (fun t => match shape t with
                               | [] => false
                               | _ :: tl => shape_eqb tl tl0
                               end) ts
          then Ok (mkTensor (list_sum (map (fun t => hd 0 (shape t)) ts) :: tl0)
                            (concat (map data ts)))
          else Raise SizeMismatch
      end
  end.

(** torch.stack(ts). *)
Definition torch_stack (ts : list tensor) : result tensor :=
  match ts with
  | [] => Raise EmptyTensorList
  | t0 :: _ =>
      if forallb (fun t => shape_eqb (shape t) (shape t0)) ts
      then Ok (mkTensor (length ts :: shape t0) (concat (map data ts)))
      else Raise SizeMismatch
  end.

(** Tensor.detach() and Tensor.to(device) keep the values. *)
Definition detach (t : tensor) : tensor := t.
Definition to_device (t : tensor) : tensor := t.

(** nn.MSELoss()(input, target): the mean of the squared differences,
    the two arguments being broadcast against each other. *)
Definition mse (input target : tensor) : result tensor :=
  rmap (fun d => mean (tmap (fun x => e_mul E x x) d)) (tsub input target).

End Tensors.

Arguments mkTensor {F} shape data.
Arguments scalar {F} x.
Arguments tensor_of_list {F} xs.

(** ** Return computation (the loop of [PPO._compute_returns]) *)

Section Returns.

Variable D : Type.
Variable P : PyFloat D.

(** The body of the [for] loop over
    [zip(reversed(rewards), reversed(is_terminals))]: [discounted] is the
    running total, [rewards] the list built by [insert(0, _)]. *)
Fixpoint returns_loop (gamma : D) (zipped : list (D * bool))
         (discounted : D) (rewards : list D) : list D :=
  match zipped with
  | [] => rewards
  | (reward, done) :: rest =>
      let discounted := if (done : bool) then py_lit P 0%Q else discounted in
      let discounted := py_add P reward (py_mul P gamma discounted) in
      returns_loop gamma rest discounted (discounted :: rewards)
  end.

Definition discounted_returns (gamma : D) (rewards : list D)
           (is_terminals : list bool) : list D :=
  returns_loop gamma (combine (rev rewards) (rev is_terminals)) (py_lit P 0%Q) [].

(** The recurrence as the specification words it: the return of a
    transition is its reward plus gamma times the return of the next
    transition, the carried total being zero at a terminal transition
    and after the last one. *)
Fixpoint returns_spec (gamma : D) (rewards : list D) (is_terminals : list bool)
  : list D :=
  match rewards, is_terminals with
  | r :: rs, d :: ds =>
      let later := returns_spec gamma rs ds in
      let carried := if (d : bool) then py_lit P 0%Q else hd (py_lit P 0%Q) later in
      py_add P r (py_mul P gamma carried) :: later
  | _, _ => []
  end.

(** The returns of the transitions [zs], in chronological order, put in
    front of the returns [later] of the transitions that follow them. *)
Fixpoint returns_onto (gamma : D) (zs : list (D * bool)) (later : list D) : list D :=
  match zs with
  | [] => later
  | (r, d) :: zs' =>
      let later' := returns_onto gamma zs' later in
      let carried := if (d : bool) then py_lit P 0%Q else hd (py_lit P 0%Q) later' in
      py_add P r (py_mul P gamma carried) :: later'
  end.

End Returns.

(** ** The controller *)

Section Controller.

Variables D F : Type.
Variable P : PyFloat D.
Variable E : Elem F.

(** Conversion of a Python float to an element of a [float32] tensor. *)
Variable cast : D -> F.

(** Parameters of an ActorCritic network (its state_dict), the state of
    the Adam optimizer, a gradient, and the state of torch's random
    number generator. *)
Variables Params OptState Grad Rng : Type.

(** The network and the optimizer are outside [PPO.py]. *)
Variable ActorCritic_new : Z -> Z -> Rng -> Params * Rng.
Variable sample : Params -> tensor F -> Rng -> tensor F * tensor F * Rng.
Variable evaluate :
  Params -> tensor F -> tensor F -> result (tensor F * tensor F * tensor F).
Variable Adam : D -> D * D -> OptState.
Variable backward : (Params -> result (tensor F)) -> Params -> Grad.
Variable clip_grad_norm_ : Grad -> D -> Grad.
Variable optimizer_step : OptState -> Params -> Grad -> Params * OptState.

(** Modelled from the spec: the rollout buffer [Memory] of
    PPO/ActorCritic.py, which is not among the sources.  Five parallel
    sequences; [append_state_action] is what [act] records,
    [append_outcome] what the driver appends, [clear] empties all. *)
Record Memory : Type := mkMemory {
  states : list (tensor F);
  actions : list (tensor F);
  logprobs : list (tensor F);
  rewards : list D;
  is_terminals : list bool
}.

Definition Memory_new : Memory := mkMemory [] [] [] [] [].

Definition append_state_action (m : Memory) (state action logprob : tensor F) : Memory :=
  mkMemory (states m ++ [state]) (actions m ++ [action]) (logprobs m ++ [logprob])
           (rewards m) (is_terminals m).

Definition append_outcome (m : Memory) (reward : D) (is_terminal : bool) : Memory :=
  mkMemory (states m) (actions m) (logprobs m)
           (rewards m ++ [reward]) (is_terminals m ++ [is_terminal]).

(** Modelled from the spec: [Memory.clear] of PPO/ActorCritic.py, which
    is not among the sources; it empties all sequences. *)
Definition clear (m : Memory) : Memory := mkMemory [] [] [] [] [].

Definition transition_count (m : Memory) : nat := length (states m).

(** Modelled from the spec: [ActorCritic.act] of PPO/ActorCritic.py, which
    is not among the sources.  It samples one action from the
    distribution of the given parameters, records state, action and
    log-probability into the memory it is given, and returns the action. *)
Definition act (theta : Params) (state : tensor F) (m : Memory) (g : Rng)
  : tensor F * Memory * Rng :=
  let '(action, logprob, g') := sample theta state g in
  (action, append_state_action m state action logprob, g').

(** nn.Module.state_dict and load_state_dict on networks of one
    architecture: the parameters are read, and replaced by a copy. *)
Definition state_dict (theta : Params) : Params := theta.
Definition load_state_dict (_ : Params) (sd : Params) : Params := sd.

Record PPO : Type := mkPPO {
  gamma : D;
  eps_clip : D;
  K_epochs : Z;
  policy : Params;
  policy_old : Params;
  optimizer : OptState;
  memory : Memory
}.

Definition set_policy_old (self : PPO) (theta : Params) : PPO :=
  mkPPO (gamma self) (eps_clip self) (K_epochs self) (policy self) theta
        (optimizer self) (memory self).

Definition set_memory (self : PPO) (m : Memory) : PPO :=
  mkPPO (gamma self) (eps_clip self) (K_epochs self) (policy self)
        (policy_old self) (optimizer self) m.

Definition set_policy_optimizer (self : PPO) (theta : Params) (o : OptState) : PPO :=
  mkPPO (gamma self) (eps_clip self) (K_epochs self) theta
        (policy_old self) o (memory self).

(** [PPO.__init__]. *)
Definition __init__ (state_dim action_dim : Z) (lr : D) (betas : D * D)
           (gamma : D) (K_epochs : Z) (eps_clip : D) (g : Rng) : PPO * Rng :=
  let '(policy, g1) := ActorCritic_new state_dim action_dim g in
  let '(policy_old, g2) := ActorCritic_new state_dim action_dim g1 in
  let policy_old := load_state_dict policy_old (state_dict policy) in
  let optimizer := Adam lr betas in
  (mkPPO gamma eps_clip K_epochs policy policy_old optimizer Memory_new, g2).

(** [PPO.select_action]. *)
Definition select_action (self : PPO) (state : tensor F) (g : Rng)
  : tensor F * PPO * Rng :=
  let '(action, m, g') := act (policy_old self) state (memory self) g in
  (action, set_memory self m, g').

(** [PPO._compute_returns]; [stabilizer] is the constant 1e-8 of line 54. *)
Definition stabilizer : F := cast (py_lit P (1 # 100000000)%Q).

Definition normalize (rewards : tensor F) : result (tensor F) :=
  (centered <- tsub E rewards (mean E rewards) ;;
   tdiv E centered (tadd_scalar E (std E rewards) stabilizer))%result.

Definition _compute_returns (self : PPO) : result (tensor F) :=
  let rewards := discounted_returns P (gamma self) (rewards (memory self))
                                    (is_terminals (memory self)) in
  let rewards := tensor_of_list (map cast rewards) in
  normalize rewards.

(** The bounds of the clip, as line 71 passes them to torch.clamp. *)
Definition clip_lo (eps_clip : D) : F := cast (py_sub P (py_lit P 1%Q) eps_clip).
Definition clip_hi (eps_clip : D) : F := cast (py_add P (py_lit P 1%Q) eps_clip).

(** The surrogate term of one transition: what
    [torch.min(surr1, surr2)] of lines 70 to 72 holds at one position. *)
Definition surrogate_term (eps_clip : D) (ratio advantage : F) : F :=
  e_min E (e_mul E ratio advantage)
        (e_mul E (clamp1 E (clip_lo eps_clip) (clip_hi eps_clip) ratio) advantage).

(** The loss of one epoch, lines 70 to 75, from the ratios, the
    advantages and the outputs of [evaluate]. *)
Definition loss_of (eps_clip : D) (returns ratios advantages : tensor F)
           (state_values dist_entropy : tensor F) : result (tensor F) :=
  (surr1 <- tmul E ratios advantages ;;
   surr2 <- tmul E (clamp E ratios (clip_lo eps_clip) (clip_hi eps_clip))
                 advantages ;;
   m <- tmin E surr1 surr2 ;;
   let actor_loss := tneg E (mean E m) in
   critic_loss <- mse E state_values returns ;;
   let entropy_loss := tneg E (mean E dist_entropy) in
   l <- tadd E actor_loss (tmul_scalar E (cast (py_lit P (1 # 2)%Q)) critic_loss) ;;
   tadd E l (tmul_scalar E (cast (py_lit P (1 # 100)%Q)) entropy_loss))%result.

Definition ratios_of (logprobs old_logprobs : tensor F) : result (tensor F) :=
  rmap (texp E) (tsub E logprobs (detach old_logprobs)).

Definition advantages_of (returns state_values : tensor F) : result (tensor F) :=
  tsub E returns (detach state_values).

(** The computation graph that [loss.backward()] differentiates at the
    parameters of the current policy: the outputs of [evaluate] vary
    with the parameters, the detached tensors do not. *)
Definition loss_graph (eps_clip : D)
           (returns old_states old_actions old_logprobs advantages : tensor F)
           (theta : Params) : result (tensor F) :=
  ('(logprobs, state_values, dist_entropy) <- evaluate theta old_states old_actions ;;
   ratios <- ratios_of logprobs old_logprobs ;;
   loss_of eps_clip returns ratios advantages state_values dist_entropy)%result.

(** *** State and exceptions

    A method of the controller takes the object and gives a value or
    an exception, and the object as the method leaves it. *)
Definition M (A : Type) : Type := PPO -> result A * PPO.

Definition mret {A : Type} (a : A) : M A := fun self => (Ok a, self).

Definition mbind {A B : Type} (c : M A) (k : A -> M B) : M B :=
  fun self =>
    match c self with
    | (Ok a, self') => k a self'
    | (Raise e, self') => (Raise e, self')
    end.

Definition lift {A : Type} (r : result A) : M A := fun self => (r, self).
Definition get : M PPO := fun self => (Ok self, self).
Definition put (self' : PPO) : M unit := fun _ => (Ok tt, self').

Declare Scope ppo_scope.
Delimit Scope ppo_scope with ppo.
Notation "x <- c ;; k" := (mbind c (fun x => k))
  (at level 61, c at next level, right associativity) : ppo_scope.
Notation "c ;;; k" := (mbind c (fun _ => k))
  (at level 61, right associativity) : ppo_scope.

(** One pass of the loop over [range(self.K_epochs)].  The value of
    the local [advantages] is returned, so that the loop can be
    observed; [update] drops it.  [zero_grad] followed by [backward]
    leaves the gradient of this epoch's loss alone in the buffers. *)
Definition epoch (returns old_states old_actions old_logprobs : tensor F)
  : M (tensor F) :=
  (self <- get ;;
   out <- lift (evaluate (policy self) old_states old_actions) ;;
   let '(logprobs, state_values, dist_entropy) := out in
   ratios <- lift (ratios_of logprobs old_logprobs) ;;
   advantages <- lift (advantages_of returns state_values) ;;
   loss <- lift (loss_of (eps_clip self) returns ratios advantages
                         state_values dist_entropy) ;;
   let grads :=
     backward (loss_graph (eps_clip self) returns old_states old_actions
                          old_logprobs advantages)
              (policy self) in
   let grads := clip_grad_norm_ grads (py_lit P (1 # 2)%Q) in
   let '(theta, opt) := optimizer_step (optimizer self) (policy self) grads in
   put (set_policy_optimizer self theta opt) ;;;
   mret advantages)%ppo.

(** The controller after the optimizer step of one epoch taken at
    [self] with the advantages [advantages]: lines 77 to 80. *)
Definition stepped (returns old_states old_actions old_logprobs advantages : tensor F)
           (self : PPO) : PPO :=
  let grads :=
    backward (loss_graph (eps_clip self) returns old_states old_actions
                         old_logprobs advantages)
             (policy self) in
  let grads := clip_grad_norm_ grads (py_lit P (1 # 2)%Q) in
  set_policy_optimizer self
    (fst (optimizer_step (optimizer self) (policy self) grads))
    (snd (optimizer_step (optimizer self) (policy self) grads)).

(** What the epochs of [update] leave alone. *)
Definition same_frame (self self' : PPO) : Prop :=
  gamma self' = gamma self /\ eps_clip self' = eps_clip self
  /\ K_epochs self' = K_epochs self /\ policy_old self' = policy_old self
  /\ memory self' = memory self.

Fixpoint for_range {A : Type} (n : nat) (body : M A) : M (list A) :=
  match n with
  | O => mret []
  | S n' => (x <- body ;; xs <- for_range n' body ;; mret (x :: xs))%ppo
  end.

(** The tensors [update] stacks out of the memory, lines 59 to 61. *)
Definition old_states_of (m : Memory) : result (tensor F) :=
  rmap (@to_device F) (torch_cat (states m)).
Definition old_actions_of (m : Memory) : result (tensor F) :=
  rmap (fun t => squeeze (to_device t)) (torch_stack (actions m)).
Definition old_logprobs_of (m : Memory) : result (tensor F) :=
  rmap (@to_device F) (torch_stack (logprobs m)).

Definition epochs (self : PPO) (returns old_states old_actions old_logprobs : tensor F)
  : M (list (tensor F)) :=
  for_range (Z.to_nat (K_epochs self))
            (epoch returns old_states old_actions old_logprobs).

(** [PPO.update]. *)
Definition update : M unit :=
  (self <- get ;;
   returns <- lift (_compute_returns self) ;;
   old_states <- lift (old_states_of (memory self)) ;;
   old_actions <- lift (old_actions_of (memory self)) ;;
   old_logprobs <- lift (old_logprobs_of (memory self)) ;;
   epochs self returns old_states old_actions old_logprobs ;;;
   self <- get ;;
   put (set_policy_old self (load_state_dict (policy_old self)
                                             (state_dict (policy self)))) ;;;
   self <- get ;;
   put (set_memory self (clear (memory self))))%ppo.

(** The controller as lines 82 and 83 leave it. *)
Definition synchronized_and_cleared (self : PPO) : PPO :=
  let self := set_policy_old self (load_state_dict (policy_old self)
                                                   (state_dict (policy self))) in
  set_memory self (clear (memory self)).

(** The baseline of the advantages drifts with the epochs: in pass [k]
    of the loop (counted from 0) the advantages are the returns minus the
    value estimates that [evaluate] gives for the current policy as the
    first [k] passes left it, and the pass then makes one optimizer step
    from there, these advantages being constants of its loss. *)
Definition drifting_baseline (self : PPO)
           (returns old_states old_actions old_logprobs : tensor F)
           (advs : list (tensor F)) : Prop :=
  forall k : nat,
    k < Z.to_nat (K_epochs self) ->
    exists adv logprobs state_values dist_entropy,
      let pass := epoch returns old_states old_actions old_logprobs in
      let before := snd (for_range k pass self) in
      nth_error advs k = Some adv
      /\ evaluate (policy before) old_states old_actions
         = Ok (logprobs, state_values, dist_entropy)
      /\ tsub E returns state_values = Ok adv
      /\ snd (for_range (S k) pass self)
         = stepped returns old_states old_actions old_logprobs adv before.

(** What the driver does between two calls of [update]: it selects
    actions and appends outcomes to the shared memory. *)
Inductive driver_step : PPO * Rng -> PPO * Rng -> Prop :=
| step_select_action (self : PPO) (state : tensor F) (g : Rng) :
    driver_step (self, g)
                (snd (fst (select_action self state g)),
                 snd (select_action self state g))
| step_append_outcome (self : PPO) (reward : D) (is_terminal : bool) (g : Rng) :
    driver_step (self, g)
                (set_memory self (append_outcome (memory self) reward is_terminal), g).

Inductive collecting : PPO * Rng -> PPO * Rng -> Prop :=
| collecting_refl (c : PPO * Rng) : collecting c c
| collecting_step (c1 c2 c3 : PPO * Rng) :
    collecting c1 c2 -> driver_step c2 c3 -> collecting c1 c3.

End Controller.

(** ** Exact rational arithmetic

    The reading of the specification: numbers are rationals, the cast to
    a tensor element is the identity.  Square root and exponential are
    not rational functions and stay parameters of the instance. *)

Module ExactQ.

Definition py : PyFloat Q := mkPyFloat (fun q : Q => q) Qplus Qminus Qmult.

Definition elem (sqrtQ expQ : Q -> Q) : Elem Q :=
  mkElem 0%Q Qplus Qminus Qmult Qdiv Qopp Qmin Qmax sqrtQ expQ
         (fun n => inject_Z (Z.of_nat n)).

Definition cast (q : Q) : Q := q.

End ExactQ.

(** ** IEEE-754 arithmetic

    Python floats are binary64, the tensors of [_compute_returns] are
    [float32]; both are instances of the parameterized specification of
    the standard library.  A decimal literal [a/b] with [a] and [b] exact
    in binary64 is read by one correctly rounded division. *)

Module IEEE.

Definition of_Z (prec emax : Z) (z : Z) : spec_float :=
  binary_normalize prec emax z 0 false.

Definition b64_lit (q : Q) : spec_float :=
  SFdiv 53 1024 (of_Z 53 1024 (Qnum q)) (of_Z 53 1024 (Zpos (Qden q))).

Definition py : PyFloat spec_float :=
  mkPyFloat b64_lit (SFadd 53 1024) (SFsub 53 1024) (SFmul 53 1024).

(** torch.min and torch.max on two elements: a NaN operand gives NaN. *)
Definition nan_min (x y : spec_float) : spec_float :=
  match SFcompare x y with
  | None => S754_nan
  | Some Gt => y
  | Some _ => x
  end.

Definition nan_max (x y : spec_float) : spec_float :=
  match SFcompare x y with
  | None => S754_nan
  | Some Lt => y
  | Some _ => x
  end.

Definition elem (exp32 : spec_float -> spec_float) : Elem spec_float :=
  mkElem (S754_zero false) (SFadd 24 128) (SFsub 24 128) (SFmul 24 128)
         (SFdiv 24 128) SFopp nan_min nan_max (SFsqrt 24 128) exp32
         (fun n => of_Z 24 128 (Z.of_nat n)).

(** binary64 to binary32, rounding to nearest even. *)
Definition cast (x : spec_float) : spec_float :=
  match x with
  | S754_finite s m e => binary_round 24 128 s m e
  | _ => x
  end.

Definition is_nan (x : spec_float) : bool :=
  match x with
  | S754_nan => true
  | _ => false
  end.

(** The controller of tests/test_ppo.py when it calls [update]: default
    gamma 0.99 and eps_clip 0.2, one stored transition with reward 1.0
    and terminal flag True.  [_compute_returns] reads nothing else, so the
    networks and the optimizer are left out. *)
Definition single_transition : PPO spec_float spec_float unit unit :=
  mkPPO (b64_lit (99 # 100)) (b64_lit (1 # 5)) 4 tt tt tt
        (mkMemory [mkTensor [1; 4] (repeat (S754_zero false) 4)]
                  [mkTensor [1] [S754_zero false]]
                  [mkTensor [1] [SFopp (cast (b64_lit (7 # 10)))]]
                  [b64_lit 1] [true]).

(** Two transitions with identical returns. *)
Definition two_identical_returns : PPO spec_float spec_float unit unit :=
  mkPPO (b64_lit (99 # 100)) (b64_lit (1 # 5)) 4 tt tt tt
        (mkMemory [] [] [] [b64_lit 1; b64_lit 1] [true; true]).

End IEEE.

(** ** A one-weight network

    A stand-in for the ActorCritic network, the autodiff engine and the
    Adam optimizer, small enough to run the controller on concrete
    rollouts in exact arithmetic.  States have shape [1; d]; a sampled
    action and its log-probability have shape [1], as a categorical
    distribution over a batch of one state gives them. *)

Module Toy.

Local Open Scope Q_scope.

(** Rational approximations of the square root and the exponential. *)
Definition approx_sqrt (q : Q) : Q :=
  Qred (Z.sqrt (Qnum q * Zpos (Qden q) * 10 ^ 12) # (Qden q * 10 ^ 6)).

Definition approx_exp (x : Q) : Q :=
  Qred (1 + x + x * x / 2 + x * x * x / 6).

(** Rational arithmetic with every result reduced to lowest terms. *)
Definition red2 (f : Q -> Q -> Q) (x y : Q) : Q := Qred (f x y).

Definition py : PyFloat Q :=
  mkPyFloat Qred (red2 Qplus) (red2 Qminus) (red2 Qmult).

Definition elem : Elem Q :=
  mkElem 0 (red2 Qplus) (red2 Qminus) (red2 Qmult) (red2 Qdiv) Qopp Qmin Qmax
         approx_sqrt approx_exp (fun n => inject_Z (Z.of_nat n)).

Definition Params : Type := Q.
Definition OptState : Type := (Q * nat)%type.
Definition Grad : Type := Q.
Definition Rng : Type := nat.

Definition ActorCritic_new (state_dim action_dim : Z) (g : Rng) : Params * Rng :=
  (inject_Z (Z.of_nat g) / 10, S g).

Definition sample (theta : Params) (state : tensor Q) (g : Rng)
  : tensor Q * tensor Q * Rng :=
  (mkTensor [1%nat] [inject_Z (Z.of_nat (g mod 2))],
   mkTensor [1%nat] [- (7 # 10)],
   S g).

(** One log-probability, one value and one entropy per state; the value
    estimates are squeezed, and actions that do not broadcast against
    the batch are refused. *)
Definition evaluate (theta : Params) (old_states old_actions : tensor Q)
  : result (tensor Q * tensor Q * tensor Q) :=
  let n := hd 0%nat (shape old_states) in
  match broadcast_shapes (shape old_actions) [n] with
  | None => Raise SizeMismatch
  | Some _ =>
      Ok (mkTensor [n] (repeat (Qred (- (6 # 10) - theta * theta)) n),
          squeeze (mkTensor [n; 1%nat] (repeat theta n)),
          mkTensor [n] (repeat (1 # 2) n))
  end.

Definition Adam (lr : Q) (betas : Q * Q) : OptState := (lr, 0%nat).

Definition value_of (r : result (tensor Q)) : Q :=
  match r with
  | Ok t => hd 0 (data t)
  | Raise _ => 0
  end.

(** A forward difference in place of the derivative, to three decimals. *)
Definition backward (graph : Params -> result (tensor Q)) (theta : Params) : Grad :=
  let d := value_of (graph (theta + (1 # 1000))) - value_of (graph theta) in
  let m := d * 1000000 in
  Qred ((Qnum m / Zpos (Qden m))%Z # 1000).

Definition clip_grad_norm_ (g : Grad) (max_norm : Q) : Grad :=
  Qmax (Qmin g max_norm) (- max_norm).

Definition optimizer_step (o : OptState) (theta : Params) (g : Grad)
  : Params * OptState :=
  (Qred (theta - fst o * g), (fst o, S (snd o))).

Definition controller : Type := PPO Q Q Params OptState.

Definition update : M Q Q Params OptState unit :=
  update py elem ExactQ.cast evaluate backward clip_grad_norm_
         optimizer_step.

(** A controller with the defaults of [__init__], and a driver that
    selects an action for an all-zero state and appends the outcome. *)
Definition new (K_epochs : Z) : controller * Rng :=
  __init__ Q ActorCritic_new Adam 4 2 (1 # 4000) (9 # 10, 999 # 1000)
           (99 # 100) K_epochs (1 # 5) 3%nat.

Definition zero_state : tensor Q := mkTensor [1%nat; 4%nat] [0; 0; 0; 0].

Definition collect (reward : Q) (is_terminal : bool) (c : controller * Rng)
  : controller * Rng :=
  let '(_, self, g) := select_action sample (fst c) zero_state (snd c) in
  (set_memory self (append_outcome (memory self) reward is_terminal), g).

(** The rollout of tests/test_ppo.py: one transition, reward 1.0, terminal. *)
Definition one_transition : controller :=
  fst (collect 1 true (new 4)).

Definition two_transitions : controller :=
  fst (collect 1 true (collect 1 false (new 4))).

(** One selected action, two appended outcomes: the reward and terminal
    sequences are longer than the state, action and log-probability
    sequences. *)
Definition two_outcomes_one_action : controller :=
  set_memory one_transition (append_outcome (memory one_transition) 1 true).

Definition three_outcomes_two_actions : controller :=
  set_memory two_transitions (append_outcome (memory two_transitions) 1 true).

End Toy.

(** * The language-model agent and the result utilities

    [src/LLM/blue_agent.py] and [src/LLM/utils.py].  A Python [str] is a
    list of code points; [str.lower] and [str.capitalize] depend on the
    Unicode tables and stay parameters; dictionaries keep their insertion
    order and are association lists. *)

(** ** Python strings *)

Definition str : Type := list N.

Definition py_str (s : string) : str := map N_of_ascii (list_ascii_of_string s).

Fixpoint str_eqb (s t : str) : bool :=
  match s, t with
  | [], [] => true
  | c :: s', d :: t' => N.eqb c d && str_eqb s' t'
  | _, _ => false
  end.

(** [str.isspace] on one character: the white space of the Unicode
    character database. *)
Definition isspace (c : N) : bool :=
  ((9 <=? c) && (c <=? 13) || (28 <=? c) && (c <=? 32)
   || (c =? 133) || (c =? 160) || (c =? 5760)
   || (8192 <=? c) && (c <=? 8202)
   || (c =? 8232) || (c =? 8233) || (c =? 8239) || (c =? 8287)
   || (c =? 12288))%N.

Fixpoint lstrip (s : str) : str :=
  match s with
  | c :: s' => if isspace c then lstrip s' else s
  | [] => []
  end.

(** [str.strip()]. *)
Definition strip (s : str) : str := rev (lstrip (rev (lstrip s))).

(** [str.split()]: the maximal runs of characters that are not white
    space; [word] is the run being read, reversed. *)
Fixpoint split_loop (s : str) (word : str) : list str :=
  match s with
  | [] => match word with [] => [] | _ => [rev word] end
  | c :: s' =>
      if isspace c
      then match word with
           | [] => split_loop s' []
           | _ => rev word :: split_loop s' []
           end
      else split_loop s' (c :: word)
  end.

Definition split (s : str) : list str := split_loop s [].

(** [sep.join(parts)]. *)
Fixpoint join (sep : str) (parts : list str) : str :=
  match parts with
  | [] => []
  | [p] => p
  | p :: rest => p ++ sep ++ join sep rest
  end.

(** [s.startswith(prefix)]. *)
Fixpoint startswith (s prefix : str) : bool :=
  match prefix, s with
  | [], _ => true
  | p :: prefix', c :: s' => N.eqb p c && startswith s' prefix'
  | _ :: _, [] => false
  end.

(** [needle in hay] on strings. *)
Fixpoint contains (needle hay : str) : bool :=
  startswith hay needle
  || match hay with
     | [] => false
     | _ :: hay' => contains needle hay'
     end.

(** [str(n)] for an int. *)
Definition str_of_int (n : Z) : str := py_str (NilZero.string_of_int (Z.to_int n)).

(** [l[start:]]. *)
Definition slice_from {A : Type} (start : Z) (l : list A) : list A :=
  let len := Z.of_nat (length l) in
  if (start <? 0)%Z
  then skipn (Z.to_nat (Z.max (len + start) 0)) l
  else skipn (Z.to_nat (Z.min start len)) l.

(** ** Python exceptions and dictionaries *)

Inductive py_exn : Type :=
| KeyError
| ValueError
| StatisticsError
| ZeroDivisionError.

Inductive outcome (A : Type) : Type :=
| Return (a : A)
| Except (e : py_exn).

Arguments Return {A} a.
Arguments Except {A} e.

Definition obind {A B : Type} (o : outcome A) (k : A -> outcome B) : outcome B :=
  match o with
  | Return a => k a
  | Except e => Except e
  end.

(** A dictionary with string keys, in insertion order. *)
Definition dict (V : Type) : Type := list (str * V).

Fixpoint dict_get {V : Type} (d : dict V) (k : str) : option V :=
  match d with
  | [] => None
  | (k', v) :: d' => if str_eqb k k' then Some v else dict_get d' k
  end.

(** [d[k] = v]: an existing key keeps its place. *)
Fixpoint dict_set {V : Type} (d : dict V) (k : str) (v : V) : dict V :=
  match d with
  | [] => [(k, v)]
  | (k', v') :: d' =>
      if str_eqb k k' then (k', v) :: d' else (k', v') :: dict_set d' k v
  end.

Definition dict_keys {V : Type} (d : dict V) : list str := map fst d.

(** [d[k]]. *)
Definition getitem {V : Type} (d : dict V) (k : str) : outcome V :=
  match dict_get d k with
  | Some v => Return v
  | None => Except KeyError
  end.

(** [enumerate(l)]. *)
Definition enumerate {A : Type} (l : list A) : list (Z * A) :=
  combine (map Z.of_nat (seq 0 (length l))) l.

(** ** [LLMBlueAgent] *)

Module Agent.

(** [BlueAgentState]; [selected_action] is [None] until an action is
    chosen. *)
Record BlueAgentState : Type := mkState {
  current_observation : str;
  history : list str;
  summary : str;
  raw_llm_output : str;
  selected_action : option Z;
  episode_step : Z
}.

Definition BlueAgentState_new : BlueAgentState :=
  mkState [] [] [] [] None 0.

(** The fields of [LLMBlueAgent] that the node functions read. *)
Record LLMBlueAgent : Type := mkAgent {
  max_history_length : Z;
  action_mapping : dict Z;
  state : BlueAgentState
}.

Definition hosts : list str :=
  map py_str ["User0"; "User1"; "User2"; "Enterprise0"; "Enterprise1";
              "Enterprise2"; "Operational0"]%string.

(** The list [actions] of [_build_action_mapping] after its loop. *)
Definition actions_of (hosts : list str) : list str :=
  flat_map (fun host => [py_str "Analyze " ++ host;
                         py_str "Remove " ++ host;
                         py_str "Restore " ++ host;
                         py_str "Decoy " ++ host]) hosts.

(** [{action: idx for idx, action in enumerate(actions)}]. *)
Definition mapping_of (actions : list str) : dict Z :=
  fold_left (fun d p => dict_set d (snd p) (fst p)) (enumerate actions) [].

Definition _build_action_mapping : dict Z := mapping_of (actions_of hosts).

Section Parsing.

(** [str.lower] and [str.capitalize]. *)
Variable lower : str -> str.
Variable capitalize : str -> str.

(** The loop [for action_name in self.action_mapping.keys()] with the
    test [action_name.lower() in text.lower()], up to its first hit. *)
Fixpoint first_mentioned (keys : list str) (text : str) : option str :=
  match keys with
  | [] => None
  | action_name :: rest =>
      if contains (lower action_name) (lower text)
      then Some action_name
      else first_mentioned rest text
  end.

(** The loop of lines 152 to 155, up to its first hit. *)
Fixpoint first_pattern (keys : list str) (action_type host_name : str)
  : option str :=
  match keys with
  | [] => None
  | action_name :: rest =>
      if startswith action_name action_type && contains host_name action_name
      then Some action_name
      else first_pattern rest action_type host_name
  end.

(** [_parse_action_simple]. *)
Definition _parse_action_simple (self : LLMBlueAgent) (response : str) : outcome Z :=
  let response := strip response in
  match first_mentioned (dict_keys (action_mapping self)) response with
  | Some action_name => getitem (action_mapping self) action_name
  | None => Return 0%Z
  end.

Definition fallback_action : Z * str := (0%Z, py_str "Analyze User0").

(** The body of the [try] of [_parse_action_node]. *)
Definition parse_action_try (self : LLMBlueAgent) (raw_llm_output : str)
  : outcome (Z * str) :=
  let action_text := strip raw_llm_output in
  match first_mentioned (dict_keys (action_mapping self)) action_text with
  | Some action_name =>
      obind (getitem (action_mapping self) action_name)
            (fun action_idx => Return (action_idx, action_name))
  | None =>
      let words := split action_text in
      let hit :=
        match words with
        | w0 :: w1 :: _ =>
            first_pattern (dict_keys (action_mapping self)) (capitalize w0) w1
        | _ => None
        end in
      match hit with
      | Some action_name =>
          obind (getitem (action_mapping self) action_name)
                (fun action_idx => Return (action_idx, action_name))
      | None => Return fallback_action
      end
  end.

(** [_parse_action_node]: the pair of [selected_action] and
    [parsed_action_text]; any exception gives the fallback. *)
Definition _parse_action_node (self : LLMBlueAgent) (raw_llm_output : str)
  : Z * str :=
  match parse_action_try self raw_llm_output with
  | Return r => r
  | Except _ => fallback_action
  end.

End Parsing.

(** The f-string of line 167. *)
Definition history_entry (state : BlueAgentState) (parsed_action_text : str) : str :=
  py_str "Step " ++ str_of_int (episode_step state) ++ py_str ": "
         ++ parsed_action_text.

(** [_update_state_node]: the state as the call leaves it. *)
Definition _update_state_node (self : LLMBlueAgent) (state : BlueAgentState)
           (parsed_action_text : str) : BlueAgentState :=
  let history := history state ++ [history_entry state parsed_action_text] in
  let history :=
    if (Z.of_nat (length history) >? max_history_length self)%Z
    then slice_from (- max_history_length self) history
    else history in
  let recent_actions :=
    if 3 <=? length history then slice_from (-3) history else history in
  mkState (current_observation state) history (join (py_str "; ") recent_actions)
          (raw_llm_output state) (selected_action state)
          (episode_step state + 1)%Z.

Section Observation.

(** The values of an observation dictionary: their truth value and
    their formatting by an f-string. *)
Variable Value : Type.
Variable truthy : Value -> bool.
Variable format_value : Value -> str.
Variable lower : str -> str.

Definition alert_keys : list str :=
  map py_str ["alert"; "compromise"; "malware"; "suspicious"]%string.

(** The list [alerts] of [_dict_observation_to_text] after its loop. *)
Definition alerts_of (obs_dict : dict Value) : list str :=
  flat_map (fun kv =>
              if truthy (snd kv) && existsb (str_eqb (lower (fst kv))) alert_keys
              then [fst kv ++ py_str ": " ++ format_value (snd kv)]
              else [])
           obs_dict.

(** [_dict_observation_to_text]. *)
Definition _dict_observation_to_text (obs_dict : dict Value) : str :=
  match alerts_of obs_dict with
  | [] => py_str "No alerts detected"
  | alerts => join (py_str "; ") alerts
  end.

End Observation.

(** ASCII lower-casing, which [str.lower] does on ASCII text. *)
Definition lower_ascii (c : N) : N :=
  if ((65 <=? c) && (c <=? 90))%N then (c + 32)%N else c.

Definition is_ascii (s : str) : Prop := Forall (fun c => (c < 128)%N) s.

(** [str.lower] and [str.capitalize] as they act on ASCII text. *)
Definition lower_text (s : str) : str := map lower_ascii s.

Definition capitalize_text (s : str) : str :=
  match s with
  | [] => []
  | c :: rest =>
      (if ((97 <=? c) && (c <=? 122))%N then (c - 32)%N else c) :: lower_text rest
  end.

(** An agent as [__init__] builds it, with the given history limit. *)
Definition new (max_history_length : Z) : LLMBlueAgent :=
  mkAgent max_history_length _build_action_mapping BlueAgentState_new.

End Agent.

(** ** [calculate_summary] of [src/LLM/utils.py]

    Rewards and durations are rationals; [statistics.mean] is exact on
    them, [statistics.stdev] takes a square root, which stays a
    parameter. *)

Module Utils.

Record EpisodeResult : Type := mkEpisode {
  episode_id : Z;
  total_reward : Q;
  steps : Z;
  actions_taken : list str;
  final_state : str;
  duration : Q;
  red_agent_type : str
}.

Definition Qlt_bool (x y : Q) : bool := negb (Qle_bool y x).

(** [sum(xs)]. *)
Definition py_sum (xs : list Q) : Q := fold_left Qplus xs 0%Q.

(** [statistics.mean], which refuses an empty list. *)
Definition statistics_mean (xs : list Q) : outcome Q :=
  match xs with
  | [] => Except StatisticsError
  | _ => Return (py_sum xs / inject_Z (Z.of_nat (length xs)))%Q
  end.

Section Summary.

Variable sqrtQ : Q -> Q.

(** [statistics.stdev], which refuses fewer than two values. *)
Definition statistics_stdev (xs : list Q) : outcome Q :=
  match xs with
  | [] | [_] => Except StatisticsError
  | _ =>
      let mu := (py_sum xs / inject_Z (Z.of_nat (length xs)))%Q in
      let ss := py_sum (map (fun x => (x - mu) * (x - mu))%Q xs) in
      Return (sqrtQ (ss / inject_Z (Z.of_nat (length xs - 1))))%Q
  end.

(** [min] and [max] of a list: the first least (greatest) element; an
    empty list is refused. *)
Definition py_min (xs : list Q) : outcome Q :=
  match xs with
  | [] => Except ValueError
  | x :: rest => Return (fold_left (fun m y => if Qlt_bool y m then y else m) rest x)
  end.

Definition py_max (xs : list Q) : outcome Q :=
  match xs with
  | [] => Except ValueError
  | x :: rest => Return (fold_left (fun m y => if Qlt_bool m y then y else m) rest x)
  end.

(** The first loop, lines 65 to 70: the rewards of the episodes, grouped
    by the type of the red agent. *)
Definition group_step (red_agent_results : dict (list Q)) (ep : EpisodeResult)
  : dict (list Q) :=
  let agent_type := red_agent_type ep in
  let d := match dict_get red_agent_results agent_type with
           | None => dict_set red_agent_results agent_type []
           | Some _ => red_agent_results
           end in
  match dict_get d agent_type with
  | Some l => dict_set d agent_type (l ++ [total_reward ep])
  | None => d
  end.

Definition group_rewards (episode_results : list EpisodeResult) : dict (list Q) :=
  fold_left group_step episode_results [].

(** The rewards of the episodes played against one type of red agent,
    in the order of the episodes. *)
Definition rewards_against (agent_type : str)
           (episode_results : list EpisodeResult) : list Q :=
  map total_reward
      (filter (fun ep => str_eqb (red_agent_type ep) agent_type) episode_results).

(** The invariant of the first loop: after the episodes [seen] the
    dictionary has one key for each type seen, with its rewards. *)
Definition grouped (d : dict (list Q)) (seen : list EpisodeResult) : Prop :=
  NoDup (dict_keys d)
  /\ forall k : str,
       dict_get d k
       = if existsb (fun ep => str_eqb (red_agent_type ep) k) seen
         then Some (rewards_against k seen)
         else None.

Record AgentStats : Type := mkStats {
  count : Z;
  avg_reward : Q;
  success_rate : Q
}.

(** [a / b] on two ints. *)
Definition true_div (a b : Z) : outcome Q :=
  if (b =? 0)%Z then Except ZeroDivisionError else Return (inject_Z a / inject_Z b)%Q.

(** The body of the second loop, lines 74 to 78. *)
Definition stats_of (agent_rewards : list Q) : outcome AgentStats :=
  obind (statistics_mean agent_rewards) (fun avg =>
  obind (true_div (Z.of_nat (length (filter (fun r => Qlt_bool 0 r) agent_rewards)))
                  (Z.of_nat (length agent_rewards))) (fun rate =>
  Return (mkStats (Z.of_nat (length agent_rewards)) avg rate))).

(** The second loop over [red_agent_results.items()]: the keys of a
    dictionary are distinct, so each assignment adds an entry. *)
Fixpoint stats_loop (items : dict (list Q)) : outcome (dict AgentStats) :=
  match items with
  | [] => Return []
  | (agent_type, agent_rewards) :: rest =>
      obind (stats_of agent_rewards) (fun st =>
      obind (stats_loop rest) (fun d => Return ((agent_type, st) :: d)))
  end.

(** The entries of the summary; [sum_avg_reward] is its key
    [avg_reward], which [AgentStats] has too. *)
Record Summary : Type := mkSummary {
  total_episodes : Z;
  sum_avg_reward : Q;
  std_reward : Q;
  min_reward : Q;
  max_reward : Q;
  avg_steps : Q;
  avg_duration : Q;
  total_duration : Q;
  red_agent_breakdown : dict AgentStats
}.

(** The dictionary that [calculate_summary] returns: the error entry
    for no episode, the nine entries of the summary otherwise. *)
Inductive summary_dict : Type :=
| NoEpisodes (error : str)
| Completed (s : Summary).

Definition calculate_summary (episode_results : list EpisodeResult)
  : outcome summary_dict :=
  match episode_results with
  | [] => Return (NoEpisodes (py_str "No episodes completed"))
  | _ =>
      let rewards := map total_reward episode_results in
      let steps := map (fun ep => inject_Z (steps ep)) episode_results in
      let durations := map duration episode_results in
      let red_agent_results := group_rewards episode_results in
      obind (stats_loop red_agent_results) (fun red_agent_stats =>
      obind (statistics_mean rewards) (fun avg =>
      obind (if 1 <? length rewards then statistics_stdev rewards else Return 0%Q)
            (fun std =>
      obind (py_min rewards) (fun mn =>
      obind (py_max rewards) (fun mx =>
      obind (statistics_mean steps) (fun avg_s =>
      obind (statistics_mean durations) (fun avg_d =>
      Return (Completed
                (mkSummary (Z.of_nat (length episode_results)) avg std mn mx
                           avg_s avg_d (py_sum durations) red_agent_stats)))))))))
  end.

End Summary.

End Utils.

(** * Properties *)

(** ** Lists *)

Lemma combine_app_same {A B : Type} (l1 l2 : list A) (m1 m2 : list B) :
  length l1 = length m1 ->
  combine (l1 ++ l2) (m1 ++ m2) = combine l1 m1 ++ combine l2 m2.
Proof.
  revert m1; induction l1 as [|a l1 IH]; intros [|b m1] H; simpl in *;
    try discriminate; [reflexivity|].
  f_equal. apply IH. lia.
Qed.

Lemma combine_rev_same {A B : Type} (l : list A) (m : list B) :
  length l = length m -> combine (rev l) (rev m) = rev (combine l m).
Proof.
  revert m; induction l as [|a l IH]; intros [|b m] H; simpl in *;
    try discriminate; [reflexivity|].
  rewrite combine_app_same by (rewrite !length_rev; lia).
  rewrite IH by lia. reflexivity.
Qed.

Lemma concat_chunks {A : Type} (k n : nat) (xs : list A) :
  length xs = n * k -> concat (chunks k n xs) = xs.
Proof.
  revert xs; induction n as [|n IH]; intros xs H; simpl in *.
  - destruct xs; [reflexivity | discriminate].
  - rewrite IH.
    + apply firstn_skipn.
    + rewrite length_skipn. lia.
Qed.

Lemma concat_repeat_singleton {A : Type} (c : A) (n : nat) :
  concat (repeat [c] n) = repeat c n.
Proof. induction n as [|n IH]; simpl; [reflexivity | now rewrite IH]. Qed.

Lemma map2_repeat_r {A B C : Type} (f : A -> B -> C) (xs : list A) (c : B) :
  map2 f xs (repeat c (length xs)) = map (fun x => f x c) xs.
Proof.
  unfold map2. induction xs as [|x xs IH]; simpl; [reflexivity | now rewrite IH].
Qed.

Lemma map2_same_length {A B C : Type} (f : A -> B -> C) (xs : list A) (ys : list B) :
  length (map2 f xs ys) = Nat.min (length xs) (length ys).
Proof. unfold map2. now rewrite length_map, length_combine. Qed.

(** ** The return recurrence *)

Section ReturnsFacts.

Variable D : Type.
Variable P : PyFloat D.

Lemma returns_onto_app (gamma : D) (zs1 zs2 : list (D * bool)) (later : list D) :
  returns_onto P gamma (zs1 ++ zs2) later
  = returns_onto P gamma zs1 (returns_onto P gamma zs2 later).
Proof.
  induction zs1 as [|[r d] zs1 IH]; simpl; [reflexivity | now rewrite IH].
Qed.

(** The loop invariant: the running total is the return at the head of
    the list built so far. *)
Lemma returns_loop_onto (gamma : D) (zs : list (D * bool)) :
  forall (discounted : D) (acc : list D),
    discounted = hd (py_lit P 0%Q) acc ->
    returns_loop P gamma zs discounted acc = returns_onto P gamma (rev zs) acc.
Proof.
  induction zs as [|[r d] zs IH]; intros discounted acc Hd; simpl.
  - reflexivity.
  - rewrite returns_onto_app. simpl.
    rewrite IH by reflexivity. now subst discounted.
Qed.

Lemma returns_spec_onto (gamma : D) (rs : list D) (ds : list bool) :
  returns_spec P gamma rs ds = returns_onto P gamma (combine rs ds) [].
Proof.
  revert ds; induction rs as [|r rs IH]; intros [|d ds]; simpl;
    try reflexivity.
  now rewrite IH.
Qed.

Lemma discounted_returns_spec (gamma : D) (rs : list D) (ds : list bool) :
  length rs = length ds ->
  discounted_returns P gamma rs ds = returns_spec P gamma rs ds.
Proof.
  intro H. unfold discounted_returns.
  rewrite returns_loop_onto by reflexivity.
  rewrite combine_rev_same by assumption.
  now rewrite rev_involutive, returns_spec_onto.
Qed.

Lemma length_returns_spec (gamma : D) (rs : list D) (ds : list bool) :
  length (returns_spec P gamma rs ds) = Nat.min (length rs) (length ds).
Proof.
  revert ds; induction rs as [|r rs IH]; intros [|d ds]; simpl;
    try reflexivity.
  now rewrite IH.
Qed.

(** The recurrence, position by position. *)
Lemma returns_spec_nth (gamma : D) (rs : list D) (ds : list bool) :
  forall (i : nat) (r : D) (d : bool),
    nth_error rs i = Some r ->
    nth_error ds i = Some d ->
    nth_error (returns_spec P gamma rs ds) i
    = Some (py_add P r
              (py_mul P gamma
                 (if d then py_lit P 0%Q
                  else nth (S i) (returns_spec P gamma rs ds) (py_lit P 0%Q)))).
Proof.
  revert ds; induction rs as [|r0 rs IH]; intros [|d0 ds] i r d Hr Hd;
    try (destruct i; discriminate).
  destruct i as [|i]; simpl in Hr, Hd.
  - injection Hr as <-. injection Hd as <-. simpl.
    destruct (returns_spec P gamma rs ds); reflexivity.
  - simpl. exact (IH ds i r d Hr Hd).
Qed.

End ReturnsFacts.

(** ** Broadcasting a vector against a zero-dimensional tensor *)

Section TensorFacts.

Variable F : Type.
Variable E : Elem F.

Lemma expand_to_vector (xs : list F) :
  expand_to [length xs] (tensor_of_list xs) = xs.
Proof.
  unfold expand_to, tensor_of_list, pad_shape; simpl.
  rewrite Nat.eqb_refl, map_id.
  apply concat_chunks. lia.
Qed.

Lemma expand_to_scalar (c : F) (n : nat) :
  expand_to [n] (scalar c) = repeat c n.
Proof.
  unfold expand_to, scalar, pad_shape; simpl.
  destruct n as [|[|n]]; try reflexivity.
  apply (concat_repeat_singleton c (S (S n))).
Qed.

Lemma broadcast2_vector_scalar (f : F -> F -> F) (xs : list F) (c : F) :
  broadcast2 f (tensor_of_list xs) (scalar c)
  = Ok (tensor_of_list (map (fun x => f x c) xs)).
Proof.
  unfold broadcast2; simpl.
  rewrite expand_to_vector, expand_to_scalar, map2_repeat_r.
  unfold tensor_of_list. now rewrite length_map.
Qed.

End TensorFacts.

(** ** Return normalization *)

Section NormalizeFacts.

Variables D F : Type.
Variable P : PyFloat D.
Variable E : Elem F.
Variable cast : D -> F.

Lemma normalize_vector (xs : list F) :
  normalize P E cast (tensor_of_list xs)
  = Ok (tensor_of_list
          (map (fun x => e_div E (e_sub E x (mean1 E xs))
                               (e_add E (std1 E xs) (stabilizer P cast))) xs)).
Proof.
  unfold normalize, tsub, mean.
  rewrite broadcast2_vector_scalar. cbn [rbind].
  change (tadd_scalar E (std E (tensor_of_list xs)) (stabilizer P cast))
    with (scalar (e_add E (std1 E xs) (stabilizer P cast))).
  unfold tdiv. rewrite broadcast2_vector_scalar, map_map. reflexivity.
Qed.

End NormalizeFacts.

(** ** Claim C1: the returns of [_compute_returns] *)

(** C1. When the stored rewards and terminal flags both have length [n],
    the return computation of [update] gives [n] values in chronological
    order, each the reward plus gamma times the return of the next
    transition, the running total being reset to zero at a terminal
    transition before its reward is added; the result of
    [_compute_returns] holds these values minus their mean, divided by
    their standard deviation plus 1e-8.  Before normalization, rewards
    [1, 1] with gamma 0.99 give [1.99, 1.0] for terminals [False, True]
    and [1.0, 1.0] for terminals [True, True], on exact rationals and on
    Python's binary64 floats alike. *)
Theorem compute_returns_spec :
  forall (D F : Type) (P : PyFloat D) (E : Elem F) (cast : D -> F)
         (Params OptState : Type) (self : PPO D F Params OptState) (n : nat),
    length (rewards (memory self)) = n ->
    length (is_terminals (memory self)) = n ->
    let R := discounted_returns P (gamma self) (rewards (memory self))
                                (is_terminals (memory self)) in
    let xs := map cast R in
    length R = n
    /\ R = returns_spec P (gamma self) (rewards (memory self))
                        (is_terminals (memory self))
    /\ (forall (i : nat) (r : D) (d : bool),
          nth_error (rewards (memory self)) i = Some r ->
          nth_error (is_terminals (memory self)) i = Some d ->
          nth_error R i
          = Some (py_add P r
                    (py_mul P (gamma self)
                       (if d then py_lit P 0%Q else nth (S i) R (py_lit P 0%Q)))))
    /\ _compute_returns P E cast self
       = Ok (mkTensor [n]
               (map (fun x => e_div E (e_sub E x (mean1 E xs))
                                    (e_add E (std1 E xs) (stabilizer P cast)))
                    xs))
    /\ Forall2 Qeq (discounted_returns ExactQ.py (99 # 100) [1; 1] [false; true])%Q
                   [199 # 100; 1]%Q
    /\ Forall2 Qeq (discounted_returns ExactQ.py (99 # 100) [1; 1] [true; true])%Q
                   [1; 1]%Q
    /\ discounted_returns IEEE.py (IEEE.b64_lit (99 # 100))
                          [IEEE.b64_lit 1; IEEE.b64_lit 1] [false; true]
       = [IEEE.b64_lit (199 # 100); IEEE.b64_lit 1]
    /\ discounted_returns IEEE.py (IEEE.b64_lit (99 # 100))
                          [IEEE.b64_lit 1; IEEE.b64_lit 1] [true; true]
       = [IEEE.b64_lit 1; IEEE.b64_lit 1].
Proof.
  intros D F P E cast Params OptState self n Hr Ht R xs.
  assert (HR : R = returns_spec P (gamma self) (rewards (memory self))
                                (is_terminals (memory self))).
  { apply discounted_returns_spec. congruence. }
  assert (Hlen : length R = n).
  { rewrite HR, length_returns_spec, Hr, Ht. apply Nat.min_id. }
  split; [exact Hlen|]. split; [exact HR|]. split.
  { intros i r d Hi Hd. rewrite HR. now apply returns_spec_nth. }
  split.
  - unfold _compute_returns. fold R. fold xs.
    rewrite normalize_vector. unfold tensor_of_list.
    rewrite length_map. subst xs. rewrite length_map, Hlen. reflexivity.
  - split; [|split; [|split]].
    + repeat constructor; reflexivity.
    + repeat constructor; reflexivity.
    + vm_compute. reflexivity.
    + vm_compute. reflexivity.
Qed.

Lemma compute_returns_spec_witness :
  length (discounted_returns Toy.py (gamma Toy.two_transitions)
                             (rewards (memory Toy.two_transitions))
                             (is_terminals (memory Toy.two_transitions))) = 2.
Proof.
  exact (proj1 (@compute_returns_spec Q Q Toy.py Toy.elem ExactQ.cast
                  Toy.Params Toy.OptState Toy.two_transitions 2
                  eq_refl eq_refl)).
Defined.

(** ** Claim C2: the clipped surrogate term *)

Section SurrogateFacts.

Variables D F : Type.
Variable P : PyFloat D.
Variable E : Elem F.
Variable cast : D -> F.

Lemma broadcast2_vectors (f : F -> F -> F) (xs ys : list F) :
  length xs = length ys ->
  broadcast2 f (tensor_of_list xs) (tensor_of_list ys)
  = Ok (tensor_of_list (map2 f xs ys)).
Proof.
  intro H. unfold broadcast2, broadcast_shapes; simpl.
  rewrite <- H, Nat.eqb_refl; simpl.
  rewrite expand_to_vector, H, expand_to_vector.
  unfold tensor_of_list. now rewrite map2_same_length, H, Nat.min_id.
Qed.

Lemma map2_map_l {A A' B C : Type} (f : A' -> B -> C) (g : A -> A')
      (xs : list A) (ys : list B) :
  map2 f (map g xs) ys = map2 (fun x y => f (g x) y) xs ys.
Proof.
  unfold map2. revert ys; induction xs as [|x xs IH]; intros [|y ys]; simpl;
    try reflexivity.
  now rewrite IH.
Qed.

Lemma map2_map2_diag {A B C C' C'' : Type} (h : C -> C' -> C'')
      (f : A -> B -> C) (g : A -> B -> C') (xs : list A) (ys : list B) :
  map2 h (map2 f xs ys) (map2 g xs ys) = map2 (fun x y => h (f x y) (g x y)) xs ys.
Proof.
  unfold map2. revert ys; induction xs as [|x xs IH]; intros [|y ys]; simpl;
    try reflexivity.
  now rewrite IH.
Qed.

(** On two vectors of one length, lines 70 to 72 compute the surrogate
    term position by position. *)
Lemma surrogate_vectors (eps_clip : D) (ratios advantages : list F) :
  length ratios = length advantages ->
  (surr1 <- tmul E (tensor_of_list ratios) (tensor_of_list advantages) ;;
   surr2 <- tmul E (clamp E (tensor_of_list ratios)
                          (clip_lo P cast eps_clip) (clip_hi P cast eps_clip))
                 (tensor_of_list advantages) ;;
   tmin E surr1 surr2)%result
  = Ok (tensor_of_list (map2 (surrogate_term P E cast eps_clip) ratios advantages)).
Proof.
  intro H. unfold tmul, tmin, clamp, tmap; simpl.
  rewrite broadcast2_vectors by assumption. cbn [rbind].
  replace (mkTensor [length ratios]
             (map (clamp1 E (clip_lo P cast eps_clip) (clip_hi P cast eps_clip)) ratios))
    with (tensor_of_list
            (map (clamp1 E (clip_lo P cast eps_clip) (clip_hi P cast eps_clip)) ratios))
    by (unfold tensor_of_list; now rewrite length_map).
  rewrite broadcast2_vectors by (now rewrite length_map). cbn [rbind].
  rewrite broadcast2_vectors
    by (now rewrite !map2_same_length, length_map).
  now rewrite map2_map_l, map2_map2_diag.
Qed.

End SurrogateFacts.

(** C2 (as stated, refuted).  With ratio 10, clip range 0.2 and advantage
    -1 the surrogate term is -10, which is not bounded below by
    (1 - 0.2) * (-1) = -0.8. *)
Lemma surrogate_lower_bound_counterexample :
  (0 < 10 /\ 0 < 1 # 5 /\ 1 # 5 < 1 /\ -1 < 0
   /\ ~ ((1 - (1 # 5)) * -1
         <= surrogate_term ExactQ.py (ExactQ.elem Toy.approx_sqrt Toy.approx_exp)
                           ExactQ.cast (1 # 5) 10 (-1)))%Q.
Proof.
  repeat split; try reflexivity.
  vm_compute. intro H. apply H. reflexivity.
Qed.

(** C2 (amended).  For every ratio r > 0, advantage a and clip range
    0 < eps < 1, the surrogate term min(r * a, clamp(r, 1 - eps, 1 + eps) * a)
    is bounded above by (1 + eps) * a when a > 0 and bounded above by
    (1 - eps) * a when a < 0; for ratio 10, eps 0.2 and advantage 1 it
    equals 1.2. *)
Theorem surrogate_term_bounds :
  forall (sqrtQ expQ : Q -> Q) (eps r a : Q),
    (0 < r -> 0 < eps -> eps < 1 ->
     let term := surrogate_term ExactQ.py (ExactQ.elem sqrtQ expQ) ExactQ.cast eps r a in
     (0 < a -> term <= (1 + eps) * a)
     /\ (a < 0 -> term <= (1 - eps) * a)
     /\ surrogate_term ExactQ.py (ExactQ.elem sqrtQ expQ) ExactQ.cast (1 # 5) 10 1
        == 12 # 10)%Q.
Proof.
  intros sqrtQ expQ eps r a Hr He0 He1 term.
  unfold surrogate_term, clamp1, clip_lo, clip_hi, ExactQ.cast in term; simpl in term.
  assert (Hhi : (Qmin (Qmax r (1 - eps)) (1 + eps) <= 1 + eps)%Q)
    by apply Q.le_min_r.
  assert (Hlo : (1 - eps <= Qmin (Qmax r (1 - eps)) (1 + eps))%Q).
  { apply Q.min_glb; [apply Q.le_max_r | lra]. }
  split; [|split].
  - intro Ha. subst term.
    eapply Qle_trans; [apply Q.le_min_r|]. nra.
  - intro Ha. subst term.
    eapply Qle_trans; [apply Q.le_min_r|]. nra.
  - reflexivity.
Qed.

Lemma surrogate_term_bounds_witness :
  (surrogate_term ExactQ.py (ExactQ.elem Toy.approx_sqrt Toy.approx_exp)
                  ExactQ.cast (1 # 5) 10 (-1)
   <= (1 - (1 # 5)) * -1)%Q.
Proof.
  exact (proj1 (proj2 (@surrogate_term_bounds Toy.approx_sqrt Toy.approx_exp
                         (1 # 5)%Q 10%Q (-1)%Q eq_refl eq_refl eq_refl))
               eq_refl).
Defined.

(** ** The controller: loops, frames and inversion *)

Section ControllerFacts.

Variables D F : Type.
Variable P : PyFloat D.
Variable E : Elem F.
Variable cast : D -> F.
Variables Params OptState Grad Rng : Type.
Variable ActorCritic_new : Z -> Z -> Rng -> Params * Rng.
Variable sample : Params -> tensor F -> Rng -> tensor F * tensor F * Rng.
Variable evaluate :
  Params -> tensor F -> tensor F -> result (tensor F * tensor F * tensor F).
Variable Adam : D -> D * D -> OptState.
Variable backward : (Params -> result (tensor F)) -> Params -> Grad.
Variable clip_grad_norm_ : Grad -> D -> Grad.
Variable optimizer_step : OptState -> Params -> Grad -> Params * OptState.

(** An epoch that completes evaluated the current policy, took the
    advantages from these value estimates, and made one optimizer step. *)
Lemma epoch_ok (returns old_states old_actions old_logprobs adv : tensor F)
      (self self' : PPO D F Params OptState) :
  epoch P E cast evaluate backward clip_grad_norm_ optimizer_step
        returns old_states old_actions old_logprobs self = (Ok adv, self') ->
  exists logprobs state_values dist_entropy,
    evaluate (policy self) old_states old_actions
    = Ok (logprobs, state_values, dist_entropy)
    /\ advantages_of E returns state_values = Ok adv
    /\ self' = stepped P E cast evaluate backward clip_grad_norm_ optimizer_step
                       returns old_states old_actions old_logprobs adv self.
Proof.
  unfold epoch, mbind, lift, get, put, mret; intro H.
  destruct (evaluate (policy self) old_states old_actions)
    as [[[logprobs state_values] dist_entropy]|e]; [|discriminate].
  destruct (ratios_of E logprobs old_logprobs) as [ratios|e]; [|discriminate].
  destruct (advantages_of E returns state_values) as [adv0|e] eqn:Hadv;
    [|discriminate].
  destruct (loss_of P E cast (eps_clip self) returns ratios adv0 state_values
                    dist_entropy) as [loss|e]; [|discriminate].
  destruct (optimizer_step _ _ _) as [theta opt] eqn:Hstep.
  injection H as <- <-.
  exists logprobs, state_values, dist_entropy.
  split; [reflexivity|]. split; [exact Hadv|].
  unfold stepped. now rewrite Hstep.
Qed.

(** An epoch that raises leaves the controller as it found it. *)
Lemma epoch_raise (returns old_states old_actions old_logprobs : tensor F)
      (self self' : PPO D F Params OptState) (e : exn) :
  epoch P E cast evaluate backward clip_grad_norm_ optimizer_step
        returns old_states old_actions old_logprobs self = (Raise e, self') ->
  self' = self.
Proof.
  unfold epoch, mbind, lift, get, put, mret; intro H.
  destruct (evaluate (policy self) old_states old_actions)
    as [[[logprobs state_values] dist_entropy]|e0]; [|congruence].
  destruct (ratios_of E logprobs old_logprobs) as [ratios|e0]; [|congruence].
  destruct (advantages_of E returns state_values) as [adv0|e0]; [|congruence].
  destruct (loss_of P E cast (eps_clip self) returns ratios adv0 state_values
                    dist_entropy) as [loss|e0]; [|congruence].
  destruct (optimizer_step _ _ _) as [theta opt].
  discriminate.
Qed.

Lemma same_frame_refl (self : PPO D F Params OptState) : same_frame self self.
Proof. unfold same_frame; auto. Qed.

Lemma same_frame_trans (s1 s2 s3 : PPO D F Params OptState) :
  same_frame s1 s2 -> same_frame s2 s3 -> same_frame s1 s3.
Proof. unfold same_frame; intuition congruence. Qed.

Lemma stepped_frame (returns old_states old_actions old_logprobs adv : tensor F)
      (self : PPO D F Params OptState) :
  same_frame self
    (stepped P E cast evaluate backward clip_grad_norm_ optimizer_step
             returns old_states old_actions old_logprobs adv self).
Proof. unfold same_frame, stepped; simpl; auto. Qed.

Lemma epoch_frame (returns old_states old_actions old_logprobs : tensor F)
      (self self' : PPO D F Params OptState) (r : result (tensor F)) :
  epoch P E cast evaluate backward clip_grad_norm_ optimizer_step
        returns old_states old_actions old_logprobs self = (r, self') ->
  same_frame self self'.
Proof.
  destruct r as [adv|e]; intro H.
  - apply epoch_ok in H. destruct H as (lp & v & ent & _ & _ & ->).
    apply stepped_frame.
  - apply epoch_raise in H. subst. apply same_frame_refl.
Qed.

(** *** The loop over [range(K_epochs)] *)

Section Loop.

Variable A : Type.
Variable body : M D F Params OptState A.

Lemma for_range_O (self : PPO D F Params OptState) :
  for_range 0 body self = (Ok [], self).
Proof. reflexivity. Qed.

Lemma for_range_S (n : nat) (self : PPO D F Params OptState) :
  for_range (S n) body self
  = match body self with
    | (Ok x, s1) =>
        match for_range n body s1 with
        | (Ok xs, s2) => (Ok (x :: xs), s2)
        | (Raise e, s2) => (Raise e, s2)
        end
    | (Raise e, s1) => (Raise e, s1)
    end.
Proof.
  simpl. unfold mbind, mret.
  destruct (body self) as [[x|e] s1]; [|reflexivity].
  destruct (for_range n body s1) as [[xs|e] s2]; reflexivity.
Qed.

Lemma for_range_split (k j : nat) (self : PPO D F Params OptState) :
  for_range (k + j) body self
  = match for_range k body self with
    | (Ok xs, mid) =>
        match for_range j body mid with
        | (Ok ys, self') => (Ok (xs ++ ys), self')
        | (Raise e, self') => (Raise e, self')
        end
    | (Raise e, mid) => (Raise e, mid)
    end.
Proof.
  revert self; induction k as [|k IH]; intro self.
  - rewrite for_range_O. simpl (0 + j).
    destruct (for_range j body self) as [[ys|e] s']; reflexivity.
  - simpl (S k + j). rewrite !for_range_S.
    destruct (body self) as [[x|e] s1]; [|reflexivity].
    rewrite IH.
    destruct (for_range k body s1) as [[xs|e] mid]; [|reflexivity].
    destruct (for_range j body mid) as [[ys|e] s']; reflexivity.
Qed.

Lemma for_range_length (n : nat) :
  forall (self self' : PPO D F Params OptState) (xs : list A),
    for_range n body self = (Ok xs, self') -> length xs = n.
Proof.
  induction n as [|n IH]; intros self self' xs.
  - rewrite for_range_O. intro H. injection H as <- _. reflexivity.
  - rewrite for_range_S.
    destruct (body self) as [[x|e] s1]; [|discriminate].
    destruct (for_range n body s1) as [[ys|e] s2] eqn:Hn; [|discriminate].
    intro H. injection H as <- _. simpl. f_equal. eauto.
Qed.

Lemma for_range_one (self : PPO D F Params OptState) :
  for_range 1 body self
  = match body self with
    | (Ok x, self') => (Ok [x], self')
    | (Raise e, self') => (Raise e, self')
    end.
Proof.
  rewrite for_range_S. destruct (body self) as [[x|e] s1]; reflexivity.
Qed.

(** A relation that every pass of the body respects is respected by the
    loop, however it ends. *)
Lemma for_range_frame (R : PPO D F Params OptState -> PPO D F Params OptState -> Prop) :
  (forall s, R s s) ->
  (forall s1 s2 s3, R s1 s2 -> R s2 s3 -> R s1 s3) ->
  (forall s r s', body s = (r, s') -> R s s') ->
  forall (n : nat) (self self' : PPO D F Params OptState) (r : result (list A)),
    for_range n body self = (r, self') -> R self self'.
Proof.
  intros Hrefl Htrans Hbody. induction n as [|n IH]; intros self self' r.
  - rewrite for_range_O. intro H. injection H as _ <-. apply Hrefl.
  - rewrite for_range_S. destruct (body self) as [[x|e] s1] eqn:Hb.
    + destruct (for_range n body s1) as [[ys|e] s2] eqn:Hn;
        intro H; injection H as _ <-;
        (eapply Htrans; [eapply Hbody; eassumption | eapply IH; eassumption]).
    + intro H. injection H as _ <-. eapply Hbody; eassumption.
Qed.

(** The first [k] passes of a loop that completes complete, and pass
    [k] is the body run on the controller they leave. *)
Lemma for_range_nth (n k : nat) (self self' : PPO D F Params OptState)
      (xs : list A) :
  for_range n body self = (Ok xs, self') ->
  k < n ->
  exists (x : A) (mid mid' : PPO D F Params OptState),
    nth_error xs k = Some x
    /\ snd (for_range k body self) = mid
    /\ body mid = (Ok x, mid')
    /\ snd (for_range (S k) body self) = mid'.
Proof.
  intros H Hk.
  replace n with (k + (1 + (n - S k))) in H by lia.
  rewrite for_range_split in H.
  destruct (for_range k body self) as [[xs1|e] mid] eqn:Hk1; [|discriminate].
  rewrite for_range_split, for_range_one in H.
  destruct (body mid) as [[x|e] mid'] eqn:Hb; [|discriminate].
  destruct (for_range (n - S k) body mid') as [[xs2|e] s2]; [|discriminate].
  injection H as <- _.
  exists x, mid, mid'. repeat split.
  - apply for_range_length in Hk1.
    rewrite nth_error_app2 by lia.
    replace (k - length xs1) with 0 by lia. reflexivity.
  - assumption.
  - replace (S k) with (k + 1) by lia.
    rewrite for_range_split, Hk1, for_range_one, Hb. reflexivity.
Qed.

End Loop.

(** *** [update], step by step *)

Lemma compute_returns_total (self : PPO D F Params OptState) :
  exists t, _compute_returns P E cast self = Ok t
            /\ shape t = [length (discounted_returns P (gamma self)
                                    (rewards (memory self))
                                    (is_terminals (memory self)))].
Proof.
  unfold _compute_returns. rewrite normalize_vector.
  eexists; split; [reflexivity|]. simpl. now rewrite !length_map.
Qed.

Lemma update_eq (self : PPO D F Params OptState) :
  update P E cast evaluate backward clip_grad_norm_ optimizer_step self
  = match _compute_returns P E cast self with
    | Raise e => (Raise e, self)
    | Ok returns =>
    match old_states_of (memory self) with
    | Raise e => (Raise e, self)
    | Ok old_states =>
    match old_actions_of (memory self) with
    | Raise e => (Raise e, self)
    | Ok old_actions =>
    match old_logprobs_of (memory self) with
    | Raise e => (Raise e, self)
    | Ok old_logprobs =>
    match epochs P E cast evaluate backward clip_grad_norm_ optimizer_step self
                 returns old_states old_actions old_logprobs self with
    | (Raise e, mid) => (Raise e, mid)
    | (Ok _, mid) => (Ok tt, synchronized_and_cleared mid)
    end end end end end.
Proof.
  unfold update, mbind, lift, get, put.
  destruct (_compute_returns P E cast self) as [returns|e]; [|reflexivity].
  destruct (old_states_of (memory self)) as [old_states|e]; [|reflexivity].
  destruct (old_actions_of (memory self)) as [old_actions|e]; [|reflexivity].
  destruct (old_logprobs_of (memory self)) as [old_logprobs|e]; [|reflexivity].
  destruct (epochs _ _ _ _ _ _ _ _ _ _ _ _ _) as [[advs|e] mid]; reflexivity.
Qed.

Lemma epochs_frame (self0 self self' : PPO D F Params OptState)
      (returns old_states old_actions old_logprobs : tensor F)
      (r : result (list (tensor F))) :
  epochs P E cast evaluate backward clip_grad_norm_ optimizer_step self0
         returns old_states old_actions old_logprobs self = (r, self') ->
  same_frame self self'.
Proof.
  unfold epochs.
  apply for_range_frame;
    [apply same_frame_refl | apply same_frame_trans |].
  intros s r0 s' Hb. eapply epoch_frame. exact Hb.
Qed.

Lemma update_ok (self self' : PPO D F Params OptState) :
  update P E cast evaluate backward clip_grad_norm_ optimizer_step self
  = (Ok tt, self') ->
  exists returns old_states old_actions old_logprobs advs mid,
    _compute_returns P E cast self = Ok returns
    /\ old_states_of (memory self) = Ok old_states
    /\ old_actions_of (memory self) = Ok old_actions
    /\ old_logprobs_of (memory self) = Ok old_logprobs
    /\ epochs P E cast evaluate backward clip_grad_norm_ optimizer_step self
              returns old_states old_actions old_logprobs self = (Ok advs, mid)
    /\ self' = synchronized_and_cleared mid.
Proof.
  rewrite update_eq.
  destruct (_compute_returns P E cast self) as [returns|e]; [|discriminate].
  destruct (old_states_of (memory self)) as [old_states|e]; [|discriminate].
  destruct (old_actions_of (memory self)) as [old_actions|e]; [|discriminate].
  destruct (old_logprobs_of (memory self)) as [old_logprobs|e]; [|discriminate].
  destruct (epochs _ _ _ _ _ _ _ _ _ _ _ _ _) as [[advs|e] mid] eqn:He;
    [|discriminate].
  intro H. injection H as <-.
  exists returns, old_states, old_actions, old_logprobs, advs, mid.
  repeat split. exact He.
Qed.

Lemma update_raise (self self' : PPO D F Params OptState) (e : exn) :
  update P E cast evaluate backward clip_grad_norm_ optimizer_step self
  = (Raise e, self') ->
  same_frame self self'.
Proof.
  rewrite update_eq.
  destruct (_compute_returns P E cast self) as [returns|e0];
    [|intro H; injection H as _ <-; apply same_frame_refl].
  destruct (old_states_of (memory self)) as [old_states|e0];
    [|intro H; injection H as _ <-; apply same_frame_refl].
  destruct (old_actions_of (memory self)) as [old_actions|e0];
    [|intro H; injection H as _ <-; apply same_frame_refl].
  destruct (old_logprobs_of (memory self)) as [old_logprobs|e0];
    [|intro H; injection H as _ <-; apply same_frame_refl].
  destruct (epochs _ _ _ _ _ _ _ _ _ _ _ _ _) as [[advs|e0] mid] eqn:He;
    [discriminate|].
  intro H. injection H as _ <-. eapply epochs_frame. exact He.
Qed.

(** *** Claim C3: the baseline of the advantages *)

(** C3. In each of the K epochs of an [update] that completes, the
    advantages are the normalized returns minus the value estimates that
    the current policy's [evaluate] gives in that epoch: in epoch k
    (counted from 1) the policy is the one that k - 1 optimizer steps of
    this update left, not a value estimate fixed at rollout time; the
    advantages enter the loss of the epoch as constants. *)
Theorem advantage_baseline_is_current_policy (self self' : PPO D F Params OptState) :
  update P E cast evaluate backward clip_grad_norm_ optimizer_step self
  = (Ok tt, self') ->
  exists returns old_states old_actions old_logprobs advs,
    _compute_returns P E cast self = Ok returns
    /\ old_states_of (memory self) = Ok old_states
    /\ old_actions_of (memory self) = Ok old_actions
    /\ old_logprobs_of (memory self) = Ok old_logprobs
    /\ fst (epochs P E cast evaluate backward clip_grad_norm_ optimizer_step self
                   returns old_states old_actions old_logprobs self) = Ok advs
    /\ length advs = Z.to_nat (K_epochs self)
    /\ drifting_baseline P E cast evaluate backward clip_grad_norm_ optimizer_step
                         self returns old_states old_actions old_logprobs advs.
Proof.
  intro H. apply update_ok in H.
  destruct H as (returns & old_states & old_actions & old_logprobs & advs & mid
                 & Hr & Hs & Ha & Hl & He & _).
  exists returns, old_states, old_actions, old_logprobs, advs.
  repeat (split; [assumption|]).
  split; [now rewrite He|].
  unfold epochs in He. split.
  - eapply for_range_length. exact He.
  - intros k Hk.
    pose proof He as Hnth. eapply for_range_nth in Hnth; [|exact Hk].
    destruct Hnth as (adv & before & after & Hn & Hb & Hp & Ha').
    apply epoch_ok in Hp.
    destruct Hp as (logprobs & state_values & dist_entropy & Hev & Hadv & Hst).
    exists adv, logprobs, state_values, dist_entropy. cbv zeta.
    rewrite Hb, Ha'. repeat split; assumption.
Qed.

(** *** Claim C4: the old policy *)

(** C4. At construction the old policy's parameters are a copy of the
    current policy's; when a call of [update] completes they equal the
    current policy's parameters as the update left them; and nothing the
    driver does between two updates (selecting actions, appending
    outcomes) modifies them, nor does a call of [update] that raises. *)
Theorem old_policy_synchronized :
  (forall (state_dim action_dim : Z) (lr : D) (betas : D * D) (gamma0 : D)
          (K : Z) (eps : D) (g : Rng),
      let self := fst (__init__ F ActorCritic_new Adam state_dim action_dim lr
                                betas gamma0 K eps g) in
      policy_old self = policy self)
  /\ (forall self self' : PPO D F Params OptState,
         update P E cast evaluate backward clip_grad_norm_ optimizer_step self
         = (Ok tt, self') ->
         policy_old self' = policy self')
  /\ (forall c c' : PPO D F Params OptState * Rng,
         collecting sample c c' ->
         policy_old (fst c') = policy_old (fst c))
  /\ (forall (self self' : PPO D F Params OptState) (e : exn),
         update P E cast evaluate backward clip_grad_norm_ optimizer_step self
         = (Raise e, self') ->
         policy_old self' = policy_old self).
Proof.
  split; [|split; [|split]];
    [| | |intros self self' e H; apply update_raise in H; apply H].
  - intros. subst self. unfold __init__.
    destruct (ActorCritic_new state_dim action_dim g) as [p g1].
    destruct (ActorCritic_new state_dim action_dim g1) as [p' g2].
    reflexivity.
  - intros self self' H. apply update_ok in H.
    destruct H as (? & ? & ? & ? & ? & mid & _ & _ & _ & _ & _ & ->).
    reflexivity.
  - intros c c' H. induction H as [c|c1 c2 c3 _ IH Hstep]; [reflexivity|].
    rewrite <- IH. destruct Hstep as [self state g|self reward is_terminal g].
    + unfold select_action.
      destruct (act sample (policy_old self) state (memory self) g) as [[a m] g'].
      reflexivity.
    + reflexivity.
Qed.

(** *** Claim C5: the memory after [update] *)

(** C5. When [update] completes, each of the five sequences of the
    memory (states, actions, log-probabilities, rewards, terminals) is
    empty: the transition count is zero. *)
Theorem update_clears_memory (self self' : PPO D F Params OptState) :
  update P E cast evaluate backward clip_grad_norm_ optimizer_step self
  = (Ok tt, self') ->
  states (memory self') = [] /\ actions (memory self') = []
  /\ logprobs (memory self') = [] /\ rewards (memory self') = []
  /\ is_terminals (memory self') = []
  /\ transition_count (memory self') = 0.
Proof.
  intro H. apply update_ok in H.
  destruct H as (? & ? & ? & ? & ? & mid & _ & _ & _ & _ & _ & ->).
  repeat split.
Qed.

(** *** Claim C7: [update] on an empty memory *)

(** C7. Called when the memory holds no transition, [update] raises the
    error of torch.cat on an empty list, before any optimizer step: the
    controller is left exactly as it was. *)
Theorem update_on_empty_memory_raises (self : PPO D F Params OptState) :
  transition_count (memory self) = 0 ->
  update P E cast evaluate backward clip_grad_norm_ optimizer_step self
  = (Raise EmptyTensorList, self).
Proof.
  unfold transition_count. intro H.
  rewrite update_eq.
  destruct (compute_returns_total self) as (t & -> & _).
  unfold old_states_of.
  destruct (states (memory self)); [reflexivity | discriminate].
Qed.

(** *** Claim C9: [select_action] *)

(** C9. [select_action] returns the action of the old policy's [act] on
    the state and the shared memory, whatever the current policy and the
    optimizer are, and changes neither the current policy, nor the old
    policy, nor the optimizer state, nor gamma, eps_clip and K_epochs. *)
Theorem select_action_delegates_to_old_policy
        (self : PPO D F Params OptState) (state : tensor F) (g : Rng) :
  let out := select_action sample self state g in
  let self' := snd (fst out) in
  (fst (fst out), memory self', snd out)
  = act sample (policy_old self) state (memory self) g
  /\ (forall (theta : Params) (o : OptState),
        fst (fst (select_action sample (set_policy_optimizer self theta o) state g))
        = fst (fst out))
  /\ policy self' = policy self
  /\ policy_old self' = policy_old self
  /\ optimizer self' = optimizer self
  /\ gamma self' = gamma self
  /\ eps_clip self' = eps_clip self
  /\ K_epochs self' = K_epochs self.
Proof.
  unfold select_action; simpl.
  destruct (act sample (policy_old self) state (memory self) g) as [[a m] g'].
  simpl. repeat split.
Qed.

(** *** Claim C10: the shape of the action batch *)

Lemma shape_eqb_refl (s : shape_t) : shape_eqb s s = true.
Proof. unfold shape_eqb. destruct (list_eq_dec Nat.eq_dec s s); congruence. Qed.

Lemma squeeze_shape_ones (s : shape_t) :
  Forall (fun d => d = 1) s -> squeeze_shape s = [].
Proof.
  induction 1 as [|d s Hd _ IH]; [reflexivity|].
  subst d. exact IH.
Qed.

Lemma torch_stack_same_shape (ts : list (tensor F)) (sa : shape_t) :
  ts <> [] ->
  Forall (fun t => shape t = sa) ts ->
  torch_stack ts = Ok (mkTensor (length ts :: sa) (concat (map (@data F) ts))).
Proof.
  intros Hne Hall. destruct ts as [|t0 ts]; [congruence|].
  unfold torch_stack.
  assert (H0 : shape t0 = sa) by now inversion Hall.
  rewrite H0.
  replace (forallb (fun t => shape_eqb (shape t) sa) (t0 :: ts)) with true;
    [reflexivity|].
  symmetry. apply forallb_forall. intros t Ht.
  rewrite Forall_forall in Hall. rewrite (Hall t Ht). apply shape_eqb_refl.
Qed.

(** C10. The stored actions each holding one action index (every
    dimension of an action has size 1), the batch of actions that
    [update] stacks and passes to the current policy's [evaluate] is
    zero-dimensional for a rollout of one transition and one-dimensional
    of length n for a rollout of n >= 2 transitions. *)
Theorem old_actions_shape (m : Memory D F) (n : nat) (sa : shape_t) :
  length (actions m) = n ->
  Forall (fun t => shape t = sa) (actions m) ->
  Forall (fun d => d = 1) sa ->
  (n = 1 -> exists t, old_actions_of m = Ok t /\ shape t = [])
  /\ (2 <= n -> exists t, old_actions_of m = Ok t /\ shape t = [n]).
Proof.
  intros Hn Hall Hones. unfold old_actions_of.
  assert (Hne : n = 1 \/ 2 <= n -> actions m <> []).
  { intros Hpos Hnil. rewrite Hnil in Hn. simpl in Hn. lia. }
  split; intro Hcase.
  - rewrite (torch_stack_same_shape (sa:=sa)) by auto.
    eexists; split; [reflexivity|]. simpl.
    rewrite Hn, Hcase. simpl. now apply squeeze_shape_ones.
  - rewrite (torch_stack_same_shape (sa:=sa)) by auto.
    eexists; split; [reflexivity|]. simpl.
    rewrite Hn. destruct (Nat.eqb_spec n 1) as [->|_]; [lia|]. simpl.
    now rewrite squeeze_shape_ones.
Qed.

(** *** Claim C8: sequences of different lengths *)

Lemma broadcast_vectors_mismatch (m n : nat) :
  m <> n -> m <> 1 -> n <> 1 -> broadcast_shapes [m] [n] = None.
Proof.
  intros Hmn Hm Hn. unfold broadcast_shapes; simpl.
  destruct (Nat.eqb_spec m n); [contradiction|].
  destruct (Nat.eqb_spec m 1); [contradiction|].
  destruct (Nat.eqb_spec n 1); [contradiction|reflexivity].
Qed.

Lemma torch_cat_batch (ts : list (tensor F)) (t : tensor F) :
  torch_cat ts = Ok t ->
  hd 0 (shape t) = list_sum (map (fun t => hd 0 (shape t)) ts).
Proof.
  unfold torch_cat. destruct ts as [|t0 ts]; [discriminate|].
  destruct (shape t0) as [|d0 tl0] eqn:H0; [discriminate|].
  destruct (forallb _ (t0 :: ts)); [|discriminate].
  intro H. injection H as <-. reflexivity.
Qed.

Lemma list_sum_ones (ts : list (tensor F)) :
  Forall (fun t => hd 0 (shape t) = 1) ts ->
  list_sum (map (fun t => hd 0 (shape t)) ts) = length ts.
Proof.
  induction 1 as [|t ts Ht _ IH]; simpl; [reflexivity|].
  now rewrite Ht, IH.
Qed.

(** C8 (amended).  [update] checks no length itself.  With states stored
    as batches of one and [evaluate] giving one value per state, when the
    reward and terminal sequences have length m, the state sequence has
    length n, m differs from n, neither is 1 and K_epochs is positive,
    [update] raises an error before any optimizer step and leaves the
    controller as it was. *)
Theorem mismatched_lengths_raise (self : PPO D F Params OptState) (n m : nat) :
  length (states (memory self)) = n ->
  Forall (fun t => hd 0 (shape t) = 1) (states (memory self)) ->
  length (rewards (memory self)) = m ->
  length (is_terminals (memory self)) = m ->
  m <> n -> m <> 1 -> n <> 1 ->
  (0 < K_epochs self)%Z ->
  (forall theta old_states old_actions logprobs state_values dist_entropy,
      evaluate theta old_states old_actions
      = Ok (logprobs, state_values, dist_entropy) ->
      hd 0 (shape old_states) <> 1 ->
      shape state_values = [hd 0 (shape old_states)]) ->
  exists e : exn,
    update P E cast evaluate backward clip_grad_norm_ optimizer_step self
    = (Raise e, self).
Proof.
  intros Hn Hones Hr Ht Hmn Hm1 Hn1 HK Heval.
  rewrite update_eq.
  destruct (compute_returns_total self) as (returns & -> & Hshape).
  rewrite discounted_returns_spec, length_returns_spec, Hr, Ht, Nat.min_id
    in Hshape by congruence.
  destruct (old_states_of (memory self)) as [old_states|e] eqn:Hs;
    [|now exists e].
  destruct (old_actions_of (memory self)) as [old_actions|e]; [|now exists e].
  destruct (old_logprobs_of (memory self)) as [old_logprobs|e]; [|now exists e].
  assert (Hbatch : hd 0 (shape old_states) = n).
  { unfold old_states_of, rmap, rbind, to_device in Hs.
    destruct (torch_cat (states (memory self))) as [t|e] eqn:Hcat; [|discriminate].
    injection Hs as <-. rewrite (torch_cat_batch _ Hcat), list_sum_ones; assumption. }
  unfold epochs.
  destruct (Z.to_nat (K_epochs self)) as [|k] eqn:Hk; [lia|].
  rewrite for_range_S.
  destruct (epoch _ _ _ _ _ _ _ _ _ _ _ self) as [[adv|e] s1] eqn:Hep.
  - exfalso. apply epoch_ok in Hep.
    destruct Hep as (logprobs & state_values & dist_entropy & Hev & Hadv & _).
    apply Heval in Hev; [|congruence].
    unfold advantages_of, detach, tsub, broadcast2 in Hadv.
    rewrite Hshape, Hev, Hbatch, broadcast_vectors_mismatch in Hadv
      by assumption.
    discriminate.
  - apply epoch_raise in Hep. subst s1. now exists e.
Qed.

End ControllerFacts.

(** ** The claims on concrete rollouts *)

Lemma toy_update_completes :
  Toy.update Toy.two_transitions = (Ok tt, snd (Toy.update Toy.two_transitions)).
Proof. vm_compute. reflexivity. Defined.

Lemma toy_evaluate_value_shape :
  forall (theta : Toy.Params) (old_states old_actions : tensor Q)
         (logprobs state_values dist_entropy : tensor Q),
    Toy.evaluate theta old_states old_actions
    = Ok (logprobs, state_values, dist_entropy) ->
    hd 0 (shape old_states) <> 1 ->
    shape state_values = [hd 0 (shape old_states)].
Proof.
  intros theta old_states old_actions logprobs state_values dist_entropy.
  unfold Toy.evaluate.
  destruct (broadcast_shapes _ _); [|discriminate].
  intros H Hn. injection H as _ <- _. simpl.
  destruct (Nat.eqb_spec (hd 0 (shape old_states)) 1); [contradiction|reflexivity].
Defined.

Lemma advantage_baseline_is_current_policy_witness :
  exists returns old_states old_actions old_logprobs advs,
    _compute_returns Toy.py Toy.elem ExactQ.cast Toy.two_transitions = Ok returns
    /\ old_states_of (memory Toy.two_transitions) = Ok old_states
    /\ old_actions_of (memory Toy.two_transitions) = Ok old_actions
    /\ old_logprobs_of (memory Toy.two_transitions) = Ok old_logprobs
    /\ fst (epochs Toy.py Toy.elem ExactQ.cast Toy.evaluate Toy.backward
                   Toy.clip_grad_norm_ Toy.optimizer_step Toy.two_transitions
                   returns old_states old_actions old_logprobs
                   Toy.two_transitions) = Ok advs
    /\ length advs = 4
    /\ drifting_baseline Toy.py Toy.elem ExactQ.cast Toy.evaluate Toy.backward
                         Toy.clip_grad_norm_ Toy.optimizer_step
                         Toy.two_transitions returns old_states old_actions
                         old_logprobs advs.
Proof.
  exact (advantage_baseline_is_current_policy
           Toy.py Toy.elem ExactQ.cast Toy.evaluate Toy.backward
           Toy.clip_grad_norm_ Toy.optimizer_step Toy.two_transitions
           toy_update_completes).
Defined.

Lemma toy_collecting :
  collecting Toy.sample (Toy.new 4) (Toy.collect 1 true (Toy.new 4)).
Proof.
  pose (c0 := Toy.new 4).
  pose (c1 := (snd (fst (select_action Toy.sample (fst c0) Toy.zero_state (snd c0))),
               snd (select_action Toy.sample (fst c0) Toy.zero_state (snd c0)))).
  apply collecting_step with (c2 := c1).
  - apply collecting_step with (c2 := c0); [apply collecting_refl|].
    exact (step_select_action Toy.sample (fst c0) Toy.zero_state (snd c0)).
  - exact (step_append_outcome Toy.sample (fst c1) 1%Q true (snd c1)).
Defined.

Lemma old_policy_synchronized_witness :
  policy_old (snd (Toy.update Toy.two_transitions))
  = policy (snd (Toy.update Toy.two_transitions))
  /\ policy_old (fst (Toy.collect 1 true (Toy.new 4)))
     = policy_old (fst (Toy.new 4)).
Proof.
  pose proof (old_policy_synchronized
                Toy.py Toy.elem ExactQ.cast Toy.ActorCritic_new Toy.sample
                Toy.evaluate Toy.Adam Toy.backward Toy.clip_grad_norm_
                Toy.optimizer_step) as H.
  split.
  - exact (proj1 (proj2 H) _ _ toy_update_completes).
  - exact (proj1 (proj2 (proj2 H)) _ _ toy_collecting).
Defined.

Lemma update_clears_memory_witness :
  transition_count (memory (snd (Toy.update Toy.two_transitions))) = 0.
Proof.
  exact (proj2 (proj2 (proj2 (proj2 (proj2
           (update_clears_memory
              Toy.py Toy.elem ExactQ.cast Toy.evaluate Toy.backward
              Toy.clip_grad_norm_ Toy.optimizer_step Toy.two_transitions
              toy_update_completes)))))).
Defined.

Lemma update_on_empty_memory_raises_witness :
  Toy.update (fst (Toy.new 4)) = (Raise EmptyTensorList, fst (Toy.new 4)).
Proof.
  exact (update_on_empty_memory_raises
           Toy.py Toy.elem ExactQ.cast Toy.evaluate Toy.backward
           Toy.clip_grad_norm_ Toy.optimizer_step (fst (Toy.new 4)) eq_refl).
Defined.

Lemma old_actions_shape_witness :
  (exists t, old_actions_of (memory Toy.one_transition) = Ok t /\ shape t = [])
  /\ (exists t, old_actions_of (memory Toy.two_transitions) = Ok t /\ shape t = [2]).
Proof.
  split.
  - refine (proj1 (@old_actions_shape Q Q (memory Toy.one_transition) 1 [1]
                     eq_refl _ _) eq_refl);
      repeat constructor.
  - refine (proj2 (@old_actions_shape Q Q (memory Toy.two_transitions) 2 [1]
                     eq_refl _ _) _);
      repeat constructor.
Defined.

(** C8 (as stated, refuted).  With one stored state, action and
    log-probability but two rewards and terminal flags, [update] raises
    nothing: the single value estimate is broadcast against the two
    returns, four optimizer steps are made and the memory is cleared. *)
Lemma mismatched_lengths_counterexample :
  length (states (memory Toy.two_outcomes_one_action)) = 1
  /\ length (actions (memory Toy.two_outcomes_one_action)) = 1
  /\ length (logprobs (memory Toy.two_outcomes_one_action)) = 1
  /\ length (rewards (memory Toy.two_outcomes_one_action)) = 2
  /\ length (is_terminals (memory Toy.two_outcomes_one_action)) = 2
  /\ fst (Toy.update Toy.two_outcomes_one_action) = Ok tt
  /\ snd (optimizer (snd (Toy.update Toy.two_outcomes_one_action))) = 4
  /\ ~ (exists (e : exn) (self' : Toy.controller),
           Toy.update Toy.two_outcomes_one_action = (Raise e, self')).
Proof.
  repeat split; try (vm_compute; reflexivity).
  intros (e & self' & H).
  assert (Hok : fst (Toy.update Toy.two_outcomes_one_action) = Ok tt)
    by (vm_compute; reflexivity).
  rewrite H in Hok. discriminate.
Qed.

Lemma mismatched_lengths_raise_witness :
  exists e : exn,
    Toy.update Toy.three_outcomes_two_actions
    = (Raise e, Toy.three_outcomes_two_actions).
Proof.
  refine (@mismatched_lengths_raise
            Q Q Toy.py Toy.elem ExactQ.cast Toy.Params Toy.OptState Toy.Grad
            Toy.evaluate Toy.backward Toy.clip_grad_norm_ Toy.optimizer_step
            Toy.three_outcomes_two_actions 2 3
            eq_refl _ eq_refl eq_refl _ _ _ eq_refl toy_evaluate_value_shape).
  - repeat constructor.
  - lia.
  - lia.
  - lia.
Defined.

(** ** Claim C6: normalization of a single return *)

(** C6 (violated by the code).  On the rollout of tests/test_ppo.py, one
    transition with reward 1.0, the standard deviation divides the sum
    of squared deviations by N - 1 = 0 and is NaN, the stabilizing
    constant is added to a NaN, and the normalized return is NaN; no
    exception is raised.  Two transitions with identical returns
    normalize to zeros. *)
Theorem single_transition_return_is_nan :
  forall exp32 : spec_float -> spec_float,
    (forall (F : Type) (E : Elem F) (x : F),
        std1 E [x]
        = let d := e_sub E x (mean1 E [x]) in
          e_sqrt E (e_div E (e_add E (e_zero E) (e_mul E d d)) (e_of_nat E 0)))
    /\ std1 (IEEE.elem exp32) [IEEE.cast (IEEE.b64_lit 1)] = S754_nan
    /\ _compute_returns IEEE.py (IEEE.elem exp32) IEEE.cast IEEE.single_transition
       = Ok (mkTensor [1] [S754_nan])
    /\ _compute_returns IEEE.py (IEEE.elem exp32) IEEE.cast IEEE.two_identical_returns
       = Ok (mkTensor [2] [S754_zero false; S754_zero false]).
Proof.
  intro exp32. repeat split; vm_compute; reflexivity.
Qed.

(** On the one-weight network the baseline does drift: the advantages
    of the first two epochs of one update differ. *)
Example toy_baseline_drifts :
  exists returns old_states old_actions old_logprobs advs a0 a1,
    _compute_returns Toy.py Toy.elem ExactQ.cast Toy.two_transitions = Ok returns
    /\ old_states_of (memory Toy.two_transitions) = Ok old_states
    /\ old_actions_of (memory Toy.two_transitions) = Ok old_actions
    /\ old_logprobs_of (memory Toy.two_transitions) = Ok old_logprobs
    /\ fst (epochs Toy.py Toy.elem ExactQ.cast Toy.evaluate Toy.backward
                   Toy.clip_grad_norm_ Toy.optimizer_step Toy.two_transitions
                   returns old_states old_actions old_logprobs
                   Toy.two_transitions) = Ok advs
    /\ nth_error advs 0 = Some a0
    /\ nth_error advs 1 = Some a1
    /\ a0 <> a1.
Proof.
  do 7 eexists.
  split; [vm_compute; reflexivity|].
  split; [vm_compute; reflexivity|].
  split; [vm_compute; reflexivity|].
  split; [vm_compute; reflexivity|].
  split; [vm_compute; reflexivity|].
  split; [reflexivity|].
  split; [reflexivity|].
  discriminate.
Qed.

(** * Further properties of the controller *)

(** ** Rewards and terminal flags of different lengths *)

Lemma combine_app_l_surplus {A B : Type} (l extra : list A) (m : list B) :
  length l = length m -> combine (l ++ extra) m = combine l m.
Proof.
  revert m; induction l as [|a l IH]; intros [|b m] H; simpl in *;
    try discriminate.
  - now destruct extra.
  - f_equal. apply IH. lia.
Qed.

Lemma combine_app_r_surplus {A B : Type} (l : list A) (m extra : list B) :
  length l = length m -> combine l (m ++ extra) = combine l m.
Proof.
  revert m; induction l as [|a l IH]; intros [|b m] H; simpl in *;
    try discriminate; [reflexivity|].
  f_equal. apply IH. lia.
Qed.

(** [zip(reversed(rewards), reversed(is_terminals))] pairs the two lists
    from their ends: when one list is longer, it is its earliest entries
    that the return computation drops, without any error. *)
Theorem surplus_entries_are_dropped_from_the_front :
  forall (D : Type) (P : PyFloat D) (gamma : D)
         (rs extra_rs : list D) (ds extra_ds : list bool),
    length rs = length ds ->
    discounted_returns P gamma (extra_rs ++ rs) ds = discounted_returns P gamma rs ds
    /\ discounted_returns P gamma rs (extra_ds ++ ds) = discounted_returns P gamma rs ds.
Proof.
  intros D P gamma rs extra_rs ds extra_ds H. unfold discounted_returns.
  rewrite !rev_app_distr.
  rewrite combine_app_l_surplus, combine_app_r_surplus
    by (rewrite !length_rev; assumption).
  split; reflexivity.
Qed.

Lemma surplus_entries_are_dropped_from_the_front_witness :
  (discounted_returns ExactQ.py (99 # 100) ([5] ++ [1; 1]) [false; true]
   = discounted_returns ExactQ.py (99 # 100) [1; 1] [false; true])%Q.
Proof.
  exact (proj1 (@surplus_entries_are_dropped_from_the_front
                  Q ExactQ.py (99 # 100)%Q [1; 1]%Q [5]%Q [false; true] [true]
                  eq_refl)).
Defined.

(** ** Episodes are independent *)

Section EpisodeFacts.

Variable D : Type.
Variable P : PyFloat D.

Lemma returns_onto_nonempty (gamma : D) (zs : list (D * bool)) (later : list D) :
  zs <> [] -> returns_onto P gamma zs later <> [].
Proof. destruct zs as [|[r d] zs]; [congruence | discriminate]. Qed.

Lemma hd_app_nonempty {A : Type} (d : A) (l l' : list A) :
  l <> [] -> hd d (l ++ l') = hd d l.
Proof. destruct l; [congruence | reflexivity]. Qed.

Lemma returns_onto_terminal (gamma : D) (zs : list (D * bool)) (r : D)
      (later : list D) :
  returns_onto P gamma (zs ++ [(r, true)]) later
  = returns_onto P gamma (zs ++ [(r, true)]) [] ++ later.
Proof.
  induction zs as [|[r0 d0] zs IH]; simpl; [reflexivity|].
  rewrite IH. rewrite hd_app_nonempty; [reflexivity|].
  apply returns_onto_nonempty. now destruct zs.
Qed.

End EpisodeFacts.

(** The returns up to a terminal transition do not depend on what
    follows it, and the returns after it do not depend on what precedes
    it: the returns of a rollout are those of its episodes, one after
    the other. *)
Theorem returns_split_at_a_terminal :
  forall (D : Type) (P : PyFloat D) (gamma : D)
         (rs1 rs2 : list D) (r : D) (ds1 ds2 : list bool),
    length rs1 = length ds1 ->
    length rs2 = length ds2 ->
    discounted_returns P gamma (rs1 ++ r :: rs2) (ds1 ++ true :: ds2)
    = discounted_returns P gamma (rs1 ++ [r]) (ds1 ++ [true])
      ++ discounted_returns P gamma rs2 ds2.
Proof.
  intros D P gamma rs1 rs2 r ds1 ds2 H1 H2.
  rewrite !discounted_returns_spec
    by (rewrite ?length_app; simpl; lia).
  rewrite !returns_spec_onto.
  rewrite !combine_app_same by assumption. simpl.
  change ((r, true) :: combine rs2 ds2) with ([(r, true)] ++ combine rs2 ds2).
  rewrite app_assoc, returns_onto_app.
  apply returns_onto_terminal.
Qed.

Lemma returns_split_at_a_terminal_witness :
  (discounted_returns ExactQ.py (99 # 100) ([1] ++ 2 :: [3; 4])
                      ([false] ++ true :: [false; false])
   = discounted_returns ExactQ.py (99 # 100) ([1] ++ [2]) ([false] ++ [true])
     ++ discounted_returns ExactQ.py (99 # 100) [3; 4] [false; false])%Q.
Proof.
  exact (@returns_split_at_a_terminal Q ExactQ.py (99 # 100)%Q [1]%Q [3; 4]%Q 2%Q
           [false] [false; false] eq_refl eq_refl).
Defined.

(** ** Normalized returns are centred *)

Lemma Qsum_from (l : list Q) (a : Q) :
  (fold_left Qplus l a == a + fold_left Qplus l 0)%Q.
Proof.
  revert a; induction l as [|x l IH]; intro a; simpl.
  - ring.
  - rewrite IH, (IH (0 + x)%Q). ring.
Qed.




(** ** An update that fails, an update without epochs, and the old policy *)

Section UpdateFacts.

Variables D F : Type.
Variable P : PyFloat D.
Variable E : Elem F.
Variable cast : D -> F.
Variables Params OptState Grad : Type.
Variable evaluate :
  Params -> tensor F -> tensor F -> result (tensor F * tensor F * tensor F).
Variable backward : (Params -> result (tensor F)) -> Params -> Grad.
Variable clip_grad_norm_ : Grad -> D -> Grad.
Variable optimizer_step : OptState -> Params -> Grad -> Params * OptState.

(** A loop that raises completed some passes and raised in the next. *)
Lemma for_range_raise (A : Type) (body : M D F Params OptState A) (n : nat) :
  forall (self self' : PPO D F Params OptState) (e : exn),
    for_range n body self = (Raise e, self') ->
    exists (k : nat) (xs : list A) (mid : PPO D F Params OptState),
      k < n
      /\ for_range k body self = (Ok xs, mid)
      /\ body mid = (Raise e, self').
Proof.
  induction n as [|n IH]; intros self self' e.
  - rewrite for_range_O. discriminate.
  - rewrite for_range_S. destruct (body self) as [[x|e0] s1] eqn:Hb.
    + destruct (for_range n body s1) as [[xs|e1] s2] eqn:Hn; [discriminate|].
      intro H. injection H as <- <-.
      destruct (IH _ _ _ Hn) as (k & ys & mid & Hk & Hys & Hmid).
      exists (S k), (x :: ys), mid. repeat split; [lia| |assumption].
      now rewrite for_range_S, Hb, Hys.
    + intro H. injection H as <- <-.
      exists 0, [], self. repeat split; [lia|assumption].
Qed.

(** An [update] that raises has either changed nothing at all, or has
    completed some of its epochs, fewer than K_epochs, and raised in the
    next: the current policy and the optimizer are as those epochs left
    them, while the memory still holds the rollout and the old policy is
    not synchronized. *)
Theorem failed_update_is_partial (self self' : PPO D F Params OptState) (e : exn) :
  update P E cast evaluate backward clip_grad_norm_ optimizer_step self
  = (Raise e, self') ->
  memory self' = memory self
  /\ policy_old self' = policy_old self
  /\ (self' = self
      \/ exists returns old_states old_actions old_logprobs k advs,
           _compute_returns P E cast self = Ok returns
           /\ old_states_of (memory self) = Ok old_states
           /\ old_actions_of (memory self) = Ok old_actions
           /\ old_logprobs_of (memory self) = Ok old_logprobs
           /\ k < Z.to_nat (K_epochs self)
           /\ for_range k (epoch P E cast evaluate backward clip_grad_norm_
                                 optimizer_step returns old_states old_actions
                                 old_logprobs) self
              = (Ok advs, self')
           /\ epoch P E cast evaluate backward clip_grad_norm_ optimizer_step
                    returns old_states old_actions old_logprobs self'
              = (Raise e, self')).
Proof.
  intro H. pose proof H as Hframe. apply update_raise in Hframe.
  split; [apply Hframe|]. split; [apply Hframe|].
  rewrite update_eq in H.
  destruct (_compute_returns P E cast self) as [returns|e0];
    [|left; congruence].
  destruct (old_states_of (memory self)) as [old_states|e0];
    [|left; congruence].
  destruct (old_actions_of (memory self)) as [old_actions|e0];
    [|left; congruence].
  destruct (old_logprobs_of (memory self)) as [old_logprobs|e0];
    [|left; congruence].
  destruct (epochs _ _ _ _ _ _ _ _ _ _ _ _ _) as [[advs|e0] mid] eqn:He;
    [discriminate|].
  injection H as -> ->. unfold epochs in He.
  apply for_range_raise in He.
  destruct He as (k & xs & mid & Hk & Hxs & Hmid).
  pose proof Hmid as Hsame. apply epoch_raise in Hsame. subst mid.
  right. exists returns, old_states, old_actions, old_logprobs, k, xs.
  repeat split; assumption.
Qed.

(** With K_epochs zero or negative the loop body never runs: when the
    memory stacks, [update] takes no optimizer step and consults no
    network, yet it synchronizes the old policy and discards the
    rollout. *)
Theorem update_without_epochs (self : PPO D F Params OptState)
        (old_states old_actions old_logprobs : tensor F) :
  (K_epochs self <= 0)%Z ->
  old_states_of (memory self) = Ok old_states ->
  old_actions_of (memory self) = Ok old_actions ->
  old_logprobs_of (memory self) = Ok old_logprobs ->
  update P E cast evaluate backward clip_grad_norm_ optimizer_step self
  = (Ok tt, synchronized_and_cleared self)
  /\ policy (synchronized_and_cleared self) = policy self
  /\ optimizer (synchronized_and_cleared self) = optimizer self.
Proof.
  intros HK Hs Ha Hl. split; [|split; reflexivity].
  rewrite update_eq, Hs, Ha, Hl.
  destruct (compute_returns_total P E cast self) as (t & -> & _).
  unfold epochs. replace (Z.to_nat (K_epochs self)) with 0 by lia.
  reflexivity.
Qed.

(** *** [update] never reads the old policy *)

Lemma epoch_old_policy (returns old_states old_actions old_logprobs : tensor F)
      (self : PPO D F Params OptState) (theta : Params) :
  epoch P E cast evaluate backward clip_grad_norm_ optimizer_step
        returns old_states old_actions old_logprobs (set_policy_old self theta)
  = (fst (epoch P E cast evaluate backward clip_grad_norm_ optimizer_step
                returns old_states old_actions old_logprobs self),
     set_policy_old
       (snd (epoch P E cast evaluate backward clip_grad_norm_ optimizer_step
                   returns old_states old_actions old_logprobs self))
       theta).
Proof.
  unfold epoch, mbind, lift, get, put, mret; simpl.
  destruct (evaluate (policy self) old_states old_actions)
    as [[[logprobs state_values] dist_entropy]|e0]; [|reflexivity].
  destruct (ratios_of E logprobs old_logprobs) as [ratios|e0]; [|reflexivity].
  destruct (advantages_of E returns state_values) as [adv0|e0]; [|reflexivity].
  destruct (loss_of P E cast (eps_clip self) returns ratios adv0 state_values
                    dist_entropy) as [loss|e0]; [|reflexivity].
  destruct (optimizer_step _ _ _) as [theta' opt]. reflexivity.
Qed.

Lemma for_range_old_policy (returns old_states old_actions old_logprobs : tensor F)
      (theta : Params) (n : nat) :
  forall self : PPO D F Params OptState,
    let pass := epoch P E cast evaluate backward clip_grad_norm_ optimizer_step
                      returns old_states old_actions old_logprobs in
    for_range n pass (set_policy_old self theta)
    = (fst (for_range n pass self), set_policy_old (snd (for_range n pass self)) theta).
Proof.
  induction n as [|n IH]; intros self pass; [reflexivity|].
  rewrite !for_range_S. subst pass. rewrite epoch_old_policy.
  destruct (epoch _ _ _ _ _ _ _ _ _ _ _ self) as [[x|e0] s1]; simpl;
    [|reflexivity].
  rewrite IH.
  destruct (for_range n _ s1) as [[xs|e1] s2]; reflexivity.
Qed.

(** The parameters of the old policy take no part in [update]: with any
    other old policy the call ends the same way, with the same current
    policy and optimizer, and when it completes, in the same controller. *)
Theorem update_never_reads_the_old_policy
        (self : PPO D F Params OptState) (theta : Params) :
  let run := update P E cast evaluate backward clip_grad_norm_ optimizer_step in
  fst (run (set_policy_old self theta)) = fst (run self)
  /\ policy (snd (run (set_policy_old self theta))) = policy (snd (run self))
  /\ optimizer (snd (run (set_policy_old self theta))) = optimizer (snd (run self))
  /\ (fst (run self) = Ok tt ->
      snd (run (set_policy_old self theta)) = snd (run self)).
Proof.
  intro run. subst run. rewrite !update_eq.
  change (_compute_returns P E cast (set_policy_old self theta))
    with (_compute_returns P E cast self).
  change (memory (set_policy_old self theta)) with (memory self).
  destruct (_compute_returns P E cast self) as [returns|e0];
    [|repeat split; discriminate].
  destruct (old_states_of (memory self)) as [old_states|e0];
    [|repeat split; discriminate].
  destruct (old_actions_of (memory self)) as [old_actions|e0];
    [|repeat split; discriminate].
  destruct (old_logprobs_of (memory self)) as [old_logprobs|e0];
    [|repeat split; discriminate].
  unfold epochs.
  change (K_epochs (set_policy_old self theta)) with (K_epochs self).
  rewrite for_range_old_policy.
  destruct (for_range _ _ self) as [[advs|e0] mid]; simpl;
    repeat split; discriminate.
Qed.

End UpdateFacts.

Lemma toy_update_mismatch_raises :
  Toy.update Toy.three_outcomes_two_actions
  = (Raise SizeMismatch, Toy.three_outcomes_two_actions).
Proof. vm_compute. reflexivity. Defined.

Lemma failed_update_is_partial_witness :
  memory (snd (Toy.update Toy.three_outcomes_two_actions))
  = memory Toy.three_outcomes_two_actions.
Proof.
  rewrite toy_update_mismatch_raises.
  exact (proj1 (failed_update_is_partial
                  Toy.py Toy.elem ExactQ.cast Toy.evaluate Toy.backward
                  Toy.clip_grad_norm_ Toy.optimizer_step
                  Toy.three_outcomes_two_actions toy_update_mismatch_raises)).
Defined.

Lemma update_without_epochs_witness :
  let self := fst (Toy.collect 1 true (Toy.collect 1 false (Toy.new 0))) in
  Toy.update self = (Ok tt, synchronized_and_cleared self).
Proof.
  intro self.
  refine (proj1 (@update_without_epochs
                   Q Q Toy.py Toy.elem ExactQ.cast Toy.Params Toy.OptState
                   Toy.Grad Toy.evaluate Toy.backward Toy.clip_grad_norm_
                   Toy.optimizer_step self
                   (mkTensor [2; 4] (repeat 0%Q 8))
                   (mkTensor [2] [1; 0]%Q)
                   (mkTensor [2; 1] [- (7 # 10); - (7 # 10)]%Q)
                   _ eq_refl eq_refl eq_refl)).
  vm_compute. discriminate.
Defined.

(** * Properties of the language-model agent *)

(** ** Strings and dictionaries *)

Lemma str_eqb_eq (s t : str) : str_eqb s t = true <-> s = t.
Proof.
  revert t; induction s as [|c s IH]; intros [|d t]; simpl;
    try (split; [discriminate | congruence]); [tauto|].
  rewrite andb_true_iff, N.eqb_eq, IH. split.
  - intros [-> ->]. reflexivity.
  - intro H. injection H as -> ->. split; reflexivity.
Qed.

Lemma str_eqb_refl (s : str) : str_eqb s s = true.
Proof. now apply str_eqb_eq. Qed.

Lemma dict_get_In {V : Type} (d : dict V) (k : str) (v : V) :
  dict_get d k = Some v -> In (k, v) d.
Proof.
  induction d as [|[k' v'] d IH]; simpl; [discriminate|].
  destruct (str_eqb k k') eqn:Hk.
  - apply str_eqb_eq in Hk. subst k'. intro H. injection H as ->. now left.
  - intro H. right. now apply IH.
Qed.

Lemma dict_get_key {V : Type} (d : dict V) (k : str) :
  In k (dict_keys d) -> exists v, dict_get d k = Some v.
Proof.
  induction d as [|[k' v'] d IH]; simpl; [contradiction|].
  intros [->|H].
  - rewrite str_eqb_refl. now exists v'.
  - destruct (str_eqb k k'); [now exists v' | now apply IH].
Qed.

Lemma startswith_refl (s : str) : startswith s s = true.
Proof. induction s as [|c s IH]; simpl; [reflexivity|]. now rewrite N.eqb_refl. Qed.

Lemma contains_refl (s : str) : contains s s = true.
Proof. destruct s; simpl; [reflexivity|]. now rewrite N.eqb_refl, startswith_refl. Qed.

Lemma lstrip_suffix (s : str) : exists pre, s = pre ++ lstrip s.
Proof.
  induction s as [|c s [pre IH]]; simpl; [now exists []|].
  destruct (isspace c); [|now exists []].
  exists (c :: pre). simpl. now f_equal.
Qed.

Lemma is_ascii_lstrip (s : str) : Agent.is_ascii s -> Agent.is_ascii (lstrip s).
Proof.
  unfold Agent.is_ascii. intro H. destruct (lstrip_suffix s) as [pre Hs].
  rewrite Hs in H. now apply Forall_app in H.
Qed.

Lemma is_ascii_strip (s : str) : Agent.is_ascii s -> Agent.is_ascii (strip s).
Proof.
  unfold strip. intro H.
  assert (Hrev : forall t, Agent.is_ascii t -> Agent.is_ascii (rev t)).
  { unfold Agent.is_ascii. intros t Ht. apply Forall_forall. intros x Hx.
    rewrite Forall_forall in Ht. apply Ht. now apply in_rev. }
  apply Hrev, is_ascii_lstrip, Hrev, is_ascii_lstrip, H.
Qed.

(** ** The action table *)

Lemma action_mapping_keys :
  dict_keys Agent._build_action_mapping = Agent.actions_of Agent.hosts.
Proof. vm_compute. reflexivity. Qed.

Lemma action_mapping_values :
  forall (name : str) (idx : Z),
    dict_get Agent._build_action_mapping name = Some idx -> (0 <= idx < 28)%Z.
Proof.
  intros name idx H. apply dict_get_In in H.
  assert (Hall : Forall (fun kv : str * Z => (0 <=? snd kv)%Z && (snd kv <? 28)%Z = true)
                        Agent._build_action_mapping).
  { apply Forall_forall. apply forallb_forall. vm_compute. reflexivity. }
  rewrite Forall_forall in Hall. apply Hall in H. simpl in H.
  apply andb_true_iff in H. lia.
Qed.

Lemma action_mapping_index :
  forall (i : nat) (name : str),
    nth_error (Agent.actions_of Agent.hosts) i = Some name ->
    dict_get Agent._build_action_mapping name = Some (Z.of_nat i).
Proof.
  intros i name H.
  assert (Hi : i < length (Agent.actions_of Agent.hosts)).
  { apply nth_error_Some. rewrite H. discriminate. }
  change (length (Agent.actions_of Agent.hosts)) with 28 in Hi.
  do 28 (destruct i as [|i];
         [injection H as <-; vm_compute; reflexivity|]).
  lia.
Qed.

Lemma action_names_ascii :
  Forall Agent.is_ascii (Agent.actions_of Agent.hosts).
Proof.
  unfold Agent.is_ascii.
  apply Forall_forall. intros name Hin. apply Forall_forall. intros c Hc.
  assert (Hall : forallb (forallb (fun c => (c <? 128)%N))
                         (Agent.actions_of Agent.hosts) = true)
    by (vm_compute; reflexivity).
  rewrite forallb_forall in Hall. specialize (Hall name Hin).
  rewrite forallb_forall in Hall. specialize (Hall c Hc).
  now apply N.ltb_lt.
Qed.

(** ** Parsing the answer of the language model *)

Section ParsingFacts.

Variable lower : str -> str.
Variable capitalize : str -> str.

Lemma first_mentioned_In (keys : list str) (text name : str) :
  Agent.first_mentioned lower keys text = Some name -> In name keys.
Proof.
  induction keys as [|k keys IH]; simpl; [discriminate|].
  destruct (contains (lower k) (lower text)).
  - intro H. injection H as ->. now left.
  - intro H. right. now apply IH.
Qed.

Lemma first_pattern_In (keys : list str) (action_type host_name name : str) :
  Agent.first_pattern keys action_type host_name = Some name -> In name keys.
Proof.
  induction keys as [|k keys IH]; simpl; [discriminate|].
  destruct (startswith k action_type && contains host_name k).
  - intro H. injection H as ->. now left.
  - intro H. right. now apply IH.
Qed.

(** The first key, in the order of the dictionary, that the text
    mentions. *)
Lemma first_mentioned_nth (keys : list str) (text : str) :
  forall (i : nat) (name : str),
    nth_error keys i = Some name ->
    contains (lower name) (lower text) = true ->
    (forall j other, j < i -> nth_error keys j = Some other ->
                     contains (lower other) (lower text) = false) ->
    Agent.first_mentioned lower keys text = Some name.
Proof.
  induction keys as [|k keys IH]; intros [|i] name Hn Hin Hbefore; simpl in *;
    try discriminate.
  - injection Hn as ->. now rewrite Hin.
  - rewrite (Hbefore 0 k) by (reflexivity || lia).
    apply (IH i); [assumption|assumption|].
    intros j other Hj Ho. apply (Hbefore (S j)); [lia|exact Ho].
Qed.

Lemma getitem_key (self : Agent.LLMBlueAgent) (name : str) :
  Agent.action_mapping self = Agent._build_action_mapping ->
  In name (dict_keys (Agent.action_mapping self)) ->
  exists idx : Z,
    getitem (Agent.action_mapping self) name = Return idx
    /\ dict_get Agent._build_action_mapping name = Some idx
    /\ (0 <= idx < 28)%Z.
Proof.
  intros Hmap Hin. rewrite Hmap in *.
  destruct (dict_get_key _ _ Hin) as [idx Hidx].
  exists idx. unfold getitem. rewrite Hidx.
  repeat split; try reflexivity; eapply action_mapping_values; exact Hidx.
Qed.

(** [_parse_action_simple] never raises and always gives the index of
    one of the 28 actions, whatever the answer is and whatever
    [str.lower] does. *)
Theorem parse_action_simple_gives_an_action_index
        (self : Agent.LLMBlueAgent) (response : str) :
  Agent.action_mapping self = Agent._build_action_mapping ->
  exists idx : Z,
    Agent._parse_action_simple lower self response = Return idx
    /\ (0 <= idx < 28)%Z.
Proof.
  intro Hmap. unfold Agent._parse_action_simple.
  destruct (Agent.first_mentioned lower _ (strip response)) as [name|] eqn:Hf.
  - apply first_mentioned_In in Hf.
    destruct (getitem_key self name Hmap Hf) as (idx & Hg & _ & Hr).
    now exists idx.
  - exists 0%Z. split; [reflexivity | lia].
Qed.

(** [_parse_action_node] always gives an index together with the name
    that the action table maps to this index, the fallback included: the
    text that enters the history names the action that is selected. *)
Theorem parse_action_node_is_consistent
        (self : Agent.LLMBlueAgent) (raw_llm_output : str) :
  Agent.action_mapping self = Agent._build_action_mapping ->
  let out := Agent._parse_action_node lower capitalize self raw_llm_output in
  dict_get Agent._build_action_mapping (snd out) = Some (fst out)
  /\ (0 <= fst out < 28)%Z.
Proof.
  intros Hmap out. subst out.
  unfold Agent._parse_action_node, Agent.parse_action_try.
  assert (Hfallback :
            dict_get Agent._build_action_mapping (snd Agent.fallback_action)
            = Some (fst Agent.fallback_action)
            /\ (0 <= fst Agent.fallback_action < 28)%Z).
  { split; [vm_compute; reflexivity | simpl; lia]. }
  destruct (Agent.first_mentioned lower _ (strip raw_llm_output))
    as [name|] eqn:Hf.
  - apply first_mentioned_In in Hf.
    destruct (getitem_key self name Hmap Hf) as (idx & -> & Hd & Hr).
    simpl. now split.
  - destruct (split (strip raw_llm_output)) as [|w0 [|w1 ws]];
      try exact Hfallback.
    destruct (Agent.first_pattern _ (capitalize w0) w1) as [name|] eqn:Hp;
      [|exact Hfallback].
    apply first_pattern_In in Hp.
    destruct (getitem_key self name Hmap Hp) as (idx & -> & Hd & Hr).
    simpl. now split.
Qed.

(** Whenever [_parse_action_simple], the parser of the mode without a
    graph, finds an action other than the default 0, [_parse_action_node]
    selects the same action. *)
Theorem parse_action_node_agrees_with_simple
        (self : Agent.LLMBlueAgent) (response : str) (idx : Z) :
  Agent._parse_action_simple lower self response = Return idx ->
  idx <> 0%Z ->
  fst (Agent._parse_action_node lower capitalize self response) = idx.
Proof.
  unfold Agent._parse_action_simple, Agent._parse_action_node,
    Agent.parse_action_try.
  destruct (Agent.first_mentioned lower _ (strip response)) as [name|].
  - intros -> _. reflexivity.
  - intros H Hne. injection H as <-. congruence.
Qed.

End ParsingFacts.

(** ** Round trip through the action table *)

Lemma no_action_name_inside_another :
  forall (i j : nat) (ni nj : str),
    nth_error (Agent.actions_of Agent.hosts) i = Some ni ->
    nth_error (Agent.actions_of Agent.hosts) j = Some nj ->
    j < i ->
    contains (map Agent.lower_ascii nj) (map Agent.lower_ascii ni) = false.
Proof.
  intros i j ni nj Hi Hj Hlt.
  assert (Hcheck :
            forallb (fun i =>
              forallb (fun j =>
                negb (contains
                        (map Agent.lower_ascii (nth j (Agent.actions_of Agent.hosts) []))
                        (map Agent.lower_ascii (nth i (Agent.actions_of Agent.hosts) []))))
                (seq 0 i))
              (seq 0 28) = true)
    by (vm_compute; reflexivity).
  assert (Hi28 : i < length (Agent.actions_of Agent.hosts)).
  { apply nth_error_Some. rewrite Hi. discriminate. }
  change (length (Agent.actions_of Agent.hosts)) with 28 in Hi28.
  rewrite forallb_forall in Hcheck.
  specialize (Hcheck i). rewrite in_seq in Hcheck.
  specialize (Hcheck ltac:(lia)).
  rewrite forallb_forall in Hcheck.
  specialize (Hcheck j). rewrite in_seq in Hcheck.
  specialize (Hcheck ltac:(lia)). cbv beta in Hcheck.
  apply negb_true_iff in Hcheck. rewrite <- Hcheck.
  f_equal; f_equal; symmetry; apply nth_error_nth; assumption.
Qed.

Section RoundTrip.

Variable lower : str -> str.
Variable capitalize : str -> str.

(** On ASCII text [str.lower] maps the letters A to Z to a to z and
    leaves the other characters. *)
Hypothesis lower_on_ascii :
  forall s : str, Agent.is_ascii s -> lower s = map Agent.lower_ascii s.

Lemma first_mentioned_table (response : str) (i : nat) (name : str) :
  Agent.is_ascii response ->
  nth_error (Agent.actions_of Agent.hosts) i = Some name ->
  contains (map Agent.lower_ascii name) (map Agent.lower_ascii (strip response))
  = true ->
  (forall (j : nat) (other : str),
      j < i ->
      nth_error (Agent.actions_of Agent.hosts) j = Some other ->
      contains (map Agent.lower_ascii other) (map Agent.lower_ascii (strip response))
      = false) ->
  Agent.first_mentioned lower (Agent.actions_of Agent.hosts) (strip response)
  = Some name.
Proof.
  intros Hascii Hi Hin Hbefore.
  assert (Hkey : forall (j : nat) (other : str),
             nth_error (Agent.actions_of Agent.hosts) j = Some other ->
             lower other = map Agent.lower_ascii other).
  { intros j other Hj. apply lower_on_ascii.
    pose proof action_names_ascii as Hall. rewrite Forall_forall in Hall.
    apply Hall. eapply nth_error_In. exact Hj. }
  assert (Htext : lower (strip response) = map Agent.lower_ascii (strip response))
    by now apply lower_on_ascii, is_ascii_strip.
  eapply first_mentioned_nth; [exact Hi| |].
  - rewrite (Hkey i name Hi), Htext. exact Hin.
  - intros j other Hj Ho. rewrite (Hkey j other Ho), Htext.
    exact (Hbefore j other Hj Ho).
Qed.

(** The answer being ASCII text, [_parse_action_simple] gives the index
    of the action name that the stripped answer mentions, without
    regard to case, and that comes first in the order of the action
    table, not in the order of the answer. *)
Theorem parse_action_simple_takes_the_first_in_table_order
        (self : Agent.LLMBlueAgent) (response : str) (i : nat) (name : str) :
  Agent.action_mapping self = Agent._build_action_mapping ->
  Agent.is_ascii response ->
  nth_error (Agent.actions_of Agent.hosts) i = Some name ->
  contains (map Agent.lower_ascii name) (map Agent.lower_ascii (strip response))
  = true ->
  (forall (j : nat) (other : str),
      j < i ->
      nth_error (Agent.actions_of Agent.hosts) j = Some other ->
      contains (map Agent.lower_ascii other) (map Agent.lower_ascii (strip response))
      = false) ->
  Agent._parse_action_simple lower self response = Return (Z.of_nat i).
Proof.
  intros Hmap Hascii Hi Hin Hbefore.
  unfold Agent._parse_action_simple.
  rewrite Hmap, action_mapping_keys.
  rewrite (@first_mentioned_table response i name Hascii Hi Hin Hbefore).
  unfold getitem. now rewrite (@action_mapping_index i name Hi).
Qed.

(** Every action name parses back to its own index: an ASCII answer
    that is, up to case and surrounding white space, the name of the
    action of index i gives i, in both parsers. *)
Theorem action_names_parse_back
        (self : Agent.LLMBlueAgent) (response : str) (i : nat) (name : str) :
  Agent.action_mapping self = Agent._build_action_mapping ->
  Agent.is_ascii response ->
  nth_error (Agent.actions_of Agent.hosts) i = Some name ->
  map Agent.lower_ascii (strip response) = map Agent.lower_ascii name ->
  Agent._parse_action_simple lower self response = Return (Z.of_nat i)
  /\ Agent._parse_action_node lower capitalize self response = (Z.of_nat i, name).
Proof.
  intros Hmap Hascii Hi Heq.
  assert (Hfirst :
            Agent.first_mentioned lower (Agent.actions_of Agent.hosts)
                                  (strip response) = Some name).
  { apply (@first_mentioned_table response i name Hascii Hi).
    - rewrite Heq. apply contains_refl.
    - intros j other Hj Ho. rewrite Heq.
      eapply no_action_name_inside_another; eassumption. }
  unfold Agent._parse_action_simple, Agent._parse_action_node,
    Agent.parse_action_try.
  rewrite Hmap, action_mapping_keys, Hfirst.
  unfold getitem. rewrite (@action_mapping_index i name Hi).
  split; reflexivity.
Qed.

End RoundTrip.

Lemma parse_action_simple_gives_an_action_index_witness :
  exists idx : Z,
    Agent._parse_action_simple Agent.lower_text (Agent.new 10)
                               (py_str "I choose restore enterprise1 now")
    = Return idx
    /\ (0 <= idx < 28)%Z.
Proof.
  exact (parse_action_simple_gives_an_action_index
           Agent.lower_text (Agent.new 10)
           (py_str "I choose restore enterprise1 now") eq_refl).
Defined.

Lemma parse_action_node_is_consistent_witness :
  let out := Agent._parse_action_node Agent.lower_text Agent.capitalize_text
                                      (Agent.new 10) (py_str "remove   User2") in
  dict_get Agent._build_action_mapping (snd out) = Some (fst out)
  /\ (0 <= fst out < 28)%Z.
Proof.
  exact (parse_action_node_is_consistent
           Agent.lower_text Agent.capitalize_text (Agent.new 10)
           (py_str "remove   User2") eq_refl).
Defined.

Lemma parse_action_node_agrees_with_simple_witness :
  fst (Agent._parse_action_node Agent.lower_text Agent.capitalize_text
                                (Agent.new 10)
                                (py_str "I choose restore enterprise1 now"))
  = 18%Z.
Proof.
  refine (@parse_action_node_agrees_with_simple
            Agent.lower_text Agent.capitalize_text (Agent.new 10)
            (py_str "I choose restore enterprise1 now") 18%Z eq_refl _).
  discriminate.
Defined.

Lemma ascii_text (s : string) :
  forallb (fun c => (c <? 128)%N) (py_str s) = true -> Agent.is_ascii (py_str s).
Proof.
  intro H. apply Forall_forall. intros c Hc.
  rewrite forallb_forall in H. now apply N.ltb_lt, H.
Defined.

Lemma parse_action_simple_takes_the_first_in_table_order_witness :
  Agent._parse_action_simple Agent.lower_text (Agent.new 10)
                             (py_str "Remove User1, then analyze user0")
  = Return 0%Z.
Proof.
  refine (@parse_action_simple_takes_the_first_in_table_order
            Agent.lower_text (fun s _ => eq_refl) (Agent.new 10)
            (py_str "Remove User1, then analyze user0") 0
            (py_str "Analyze User0") eq_refl
            (@ascii_text "Remove User1, then analyze user0" eq_refl)
            eq_refl eq_refl _).
  intros j other Hj. lia.
Defined.

Lemma action_names_parse_back_witness :
  Agent._parse_action_simple Agent.lower_text (Agent.new 10)
                             (py_str "  RESTORE enterprise1 ")
  = Return 18%Z
  /\ Agent._parse_action_node Agent.lower_text Agent.capitalize_text (Agent.new 10)
                              (py_str "  RESTORE enterprise1 ")
     = (18%Z, py_str "Restore Enterprise1").
Proof.
  exact (@action_names_parse_back
           Agent.lower_text Agent.capitalize_text (fun s _ => eq_refl)
           (Agent.new 10) (py_str "  RESTORE enterprise1 ") 18
           (py_str "Restore Enterprise1") eq_refl
           (@ascii_text "  RESTORE enterprise1 " eq_refl)
           eq_refl eq_refl).
Defined.

(** ** The history of the agent *)

Lemma last_skipn {A : Type} (n : nat) (l : list A) (d : A) :
  n < length l -> last (skipn n l) d = last l d.
Proof.
  revert l; induction n as [|n IH]; intros l H; [reflexivity|].
  destruct l as [|x l]; simpl in *; [lia|].
  rewrite IH by lia. destruct l; [simpl in H; lia | reflexivity].
Qed.

Lemma update_state_history
      (self : Agent.LLMBlueAgent) (state : Agent.BlueAgentState) (text : str) :
  Agent.history (Agent._update_state_node self state text)
  = let h := Agent.history state ++ [Agent.history_entry state text] in
    if (Z.of_nat (length h) >? Agent.max_history_length self)%Z
    then slice_from (- Agent.max_history_length self) h
    else h.
Proof. reflexivity. Qed.

(** With a limit of at least 1, [_update_state_node] keeps the history
    within the limit: the history grows by the new entry until it has
    [max_history_length] entries and keeps that length afterwards, the
    new entry being its last one; the step counter advances by one. *)
Theorem history_stays_within_its_limit
        (self : Agent.LLMBlueAgent) (state : Agent.BlueAgentState) (text : str) :
  (1 <= Agent.max_history_length self)%Z ->
  let state' := Agent._update_state_node self state text in
  length (Agent.history state')
  = Nat.min (S (length (Agent.history state)))
            (Z.to_nat (Agent.max_history_length self))
  /\ last (Agent.history state') [] = Agent.history_entry state text
  /\ Agent.episode_step state' = (Agent.episode_step state + 1)%Z.
Proof.
  intros Hm state'. subst state'. rewrite update_state_history. cbv zeta.
  set (h := Agent.history state ++ [Agent.history_entry state text]).
  assert (Hlen : length h = S (length (Agent.history state)))
    by (subst h; rewrite length_app; simpl; lia).
  assert (Hlast : last h [] = Agent.history_entry state text)
    by (subst h; apply last_last).
  split; [|split; [|reflexivity]].
  - destruct (Z.gtb_spec (Z.of_nat (length h)) (Agent.max_history_length self)).
    + unfold slice_from.
      destruct (Z.ltb_spec (- Agent.max_history_length self) 0); [|lia].
      rewrite length_skipn. lia.
    + lia.
  - destruct (Z.gtb_spec (Z.of_nat (length h)) (Agent.max_history_length self)).
    + unfold slice_from.
      destruct (Z.ltb_spec (- Agent.max_history_length self) 0); [|lia].
      rewrite last_skipn by lia. exact Hlast.
    + exact Hlast.
Qed.

Lemma history_stays_within_its_limit_witness :
  length (Agent.history
            (Agent._update_state_node
               (Agent.new 2)
               (Agent._update_state_node
                  (Agent.new 2)
                  (Agent._update_state_node (Agent.new 2) Agent.BlueAgentState_new
                                            (py_str "Analyze User0"))
                  (py_str "Remove User0"))
               (py_str "Restore User0")))
  = 2.
Proof.
  refine (proj1 (@history_stays_within_its_limit (Agent.new 2) _ _ _)).
  simpl. lia.
Defined.



(** ** Observations given as dictionaries *)

Section ObservationFacts.

Variable Value : Type.
Variable truthy : Value -> bool.
Variable format_value : Value -> str.
Variable lower : str -> str.

Lemma alerts_have_a_colon (obs_dict : dict Value) (a : str) :
  In a (Agent.alerts_of truthy format_value lower obs_dict) -> In 58%N a.
Proof.
  unfold Agent.alerts_of. rewrite in_flat_map. intros ([k v] & _ & Hin).
  cbn [fst snd] in Hin.
  destruct (truthy v && existsb (str_eqb (lower k)) Agent.alert_keys);
    [|destruct Hin].
  destruct Hin as [<-|[]].
  apply in_or_app. right. now left.
Qed.

Lemma join_first_part (sep p : str) (rest : list str) (c : N) :
  In c p -> In c (join sep (p :: rest)).
Proof.
  intro H. destruct rest; simpl; [exact H|].
  apply in_or_app. now left.
Qed.

(** [_dict_observation_to_text] answers "No alerts detected" exactly
    when no entry of the observation has a true value under one of the
    four alert keys; otherwise its text holds one "key: value" part for
    each such entry, in the order of the dictionary.  The text is never
    empty. *)
Theorem dict_observation_text_reports_the_alerts (obs_dict : dict Value) :
  let text := Agent._dict_observation_to_text truthy format_value lower obs_dict in
  let alerts := Agent.alerts_of truthy format_value lower obs_dict in
  (text = py_str "No alerts detected" <-> alerts = [])
  /\ (alerts <> [] -> text = join (py_str "; ") alerts)
  /\ text <> [].
Proof.
  intros text alerts. subst text. unfold Agent._dict_observation_to_text.
  fold alerts.
  destruct alerts as [|a rest] eqn:Ha.
  - repeat split; congruence || discriminate.
  - assert (Hcolon : In 58%N (join (py_str "; ") (a :: rest))).
    { apply join_first_part.
      apply (alerts_have_a_colon obs_dict). fold alerts. rewrite Ha. now left. }
    repeat split.
    + intro H. rewrite H in Hcolon. exfalso. revert Hcolon. vm_compute.
      intuition discriminate.
    + discriminate.
    + intro H. rewrite H in Hcolon. contradiction.
Qed.

End ObservationFacts.

(** * Properties of [calculate_summary] *)

(** ** Dictionaries *)

Lemma str_eqb_sym (s t : str) : str_eqb s t = str_eqb t s.
Proof.
  destruct (str_eqb s t) eqn:H1, (str_eqb t s) eqn:H2; try reflexivity.
  - apply str_eqb_eq in H1. subst. now rewrite str_eqb_refl in H2.
  - apply str_eqb_eq in H2. subst. now rewrite str_eqb_refl in H1.
Qed.

Lemma dict_get_set_same {V : Type} (d : dict V) (k : str) (v : V) :
  dict_get (dict_set d k v) k = Some v.
Proof.
  induction d as [|[k' v'] d IH]; simpl.
  - now rewrite str_eqb_refl.
  - destruct (str_eqb k k') eqn:Hk; simpl; rewrite Hk; [reflexivity | exact IH].
Qed.

Lemma dict_get_set_other {V : Type} (d : dict V) (k k' : str) (v : V) :
  str_eqb k' k = false -> dict_get (dict_set d k v) k' = dict_get d k'.
Proof.
  intro Hne. induction d as [|[k0 v0] d IH]; simpl.
  - now rewrite Hne.
  - destruct (str_eqb k k0) eqn:Hk; simpl.
    + apply str_eqb_eq in Hk. subst k0. now rewrite Hne.
    + now rewrite IH.
Qed.

Lemma dict_keys_set {V : Type} (d : dict V) (k : str) (v : V) :
  dict_keys (dict_set d k v)
  = match dict_get d k with
    | Some _ => dict_keys d
    | None => dict_keys d ++ [k]
    end.
Proof.
  induction d as [|[k0 v0] d IH]; simpl; [reflexivity|].
  destruct (str_eqb k k0) eqn:Hk; simpl; [reflexivity|].
  rewrite IH. now destruct (dict_get d k).
Qed.

Lemma dict_get_None_keys {V : Type} (d : dict V) (k : str) :
  dict_get d k = None <-> ~ In k (dict_keys d).
Proof.
  induction d as [|[k0 v0] d IH]; simpl; [tauto|].
  destruct (str_eqb k k0) eqn:Hk.
  - apply str_eqb_eq in Hk. subst. split; [discriminate | tauto].
  - rewrite IH. split; [|tauto].
    intros Hn [->|Hin]; [now rewrite str_eqb_refl in Hk | tauto].
Qed.

Lemma In_dict_get {V : Type} (d : dict V) (k : str) (v : V) :
  NoDup (dict_keys d) -> In (k, v) d -> dict_get d k = Some v.
Proof.
  induction d as [|[k0 v0] d IH]; simpl; [contradiction|].
  intros Hnd [H|H].
  - injection H as -> ->. now rewrite str_eqb_refl.
  - inversion Hnd as [|? ? Hnotin Hnd']; subst.
    destruct (str_eqb k k0) eqn:Hk.
    + apply str_eqb_eq in Hk. subst k0. exfalso. apply Hnotin.
      change k with (fst (k, v)). now apply in_map.
    + now apply IH.
Qed.

(** ** Grouping the rewards by the type of the red agent *)

Lemma rewards_against_snoc (k : str) (pre : list Utils.EpisodeResult)
      (ep : Utils.EpisodeResult) :
  Utils.rewards_against k (pre ++ [ep])
  = Utils.rewards_against k pre
    ++ (if str_eqb (Utils.red_agent_type ep) k then [Utils.total_reward ep] else []).
Proof.
  unfold Utils.rewards_against. rewrite filter_app, map_app. simpl.
  now destruct (str_eqb (Utils.red_agent_type ep) k).
Qed.

Lemma rewards_against_none (k : str) (eps : list Utils.EpisodeResult) :
  existsb (fun ep => str_eqb (Utils.red_agent_type ep) k) eps = false ->
  Utils.rewards_against k eps = [].
Proof.
  unfold Utils.rewards_against.
  induction eps as [|ep eps IH]; simpl; [reflexivity|].
  destruct (str_eqb (Utils.red_agent_type ep) k); simpl; [discriminate|exact IH].
Qed.

Lemma rewards_against_some (k : str) (eps : list Utils.EpisodeResult) :
  existsb (fun ep => str_eqb (Utils.red_agent_type ep) k) eps = true ->
  Utils.rewards_against k eps <> [].
Proof.
  unfold Utils.rewards_against.
  induction eps as [|ep eps IH]; simpl; [discriminate|].
  destruct (str_eqb (Utils.red_agent_type ep) k); simpl; [discriminate|exact IH].
Qed.

Lemma group_step_grouped (d : dict (list Q)) (seen : list Utils.EpisodeResult)
      (ep : Utils.EpisodeResult) :
  Utils.grouped d seen -> Utils.grouped (Utils.group_step d ep) (seen ++ [ep]).
Proof.
  intros [Hnd Hget]. unfold Utils.group_step.
  set (t := Utils.red_agent_type ep).
  assert (Hstep :
            exists l, dict_get d t = (if existsb (fun e => str_eqb (Utils.red_agent_type e) t) seen
                                      then Some l else None)
                      /\ l = Utils.rewards_against t seen).
  { eexists; split; [apply Hget | reflexivity]. }
  destruct Hstep as (l & Hl & ->).
  destruct (existsb (fun e => str_eqb (Utils.red_agent_type e) t) seen) eqn:Hex;
    rewrite Hl.
  - (* the type was seen before *)
    rewrite Hl. split.
    + now rewrite dict_keys_set, Hl.
    + intro k. rewrite existsb_app, rewards_against_snoc. simpl.
      fold t. destruct (str_eqb t k) eqn:Hk.
      * apply str_eqb_eq in Hk. subst k.
        rewrite dict_get_set_same, orb_true_r. reflexivity.
      * rewrite dict_get_set_other by (now rewrite str_eqb_sym).
        rewrite Hget, orb_false_r, app_nil_r. reflexivity.
  - (* a new type *)
    rewrite dict_get_set_same. split.
    + rewrite dict_keys_set, dict_get_set_same, dict_keys_set, Hl.
      apply NoDup_app; [exact Hnd | repeat constructor; intros [] |].
      intros x Hx [<-|[]]. now apply dict_get_None_keys in Hl.
    + intro k. rewrite existsb_app, rewards_against_snoc. simpl.
      fold t. destruct (str_eqb t k) eqn:Hk.
      * apply str_eqb_eq in Hk. subst k.
        rewrite dict_get_set_same, orb_true_r.
        now rewrite (rewards_against_none t seen Hex).
      * rewrite !dict_get_set_other by (now rewrite str_eqb_sym).
        rewrite Hget, orb_false_r, app_nil_r. reflexivity.
Qed.

Lemma fold_group_grouped (eps : list Utils.EpisodeResult) :
  forall (d : dict (list Q)) (seen : list Utils.EpisodeResult),
    Utils.grouped d seen ->
    Utils.grouped (fold_left Utils.group_step eps d) (seen ++ eps).
Proof.
  induction eps as [|ep eps IH]; intros d seen H; simpl.
  - now rewrite app_nil_r.
  - replace (seen ++ ep :: eps) with ((seen ++ [ep]) ++ eps)
      by (now rewrite <- app_assoc).
    apply IH. now apply group_step_grouped.
Qed.

Lemma group_rewards_grouped (eps : list Utils.EpisodeResult) :
  Utils.grouped (Utils.group_rewards eps) eps.
Proof.
  apply (@fold_group_grouped eps [] []).
  split; [constructor | reflexivity].
Qed.

(** ** The statistics of one group and of all groups *)

Lemma stats_of_nonempty (l : list Q) :
  l <> [] ->
  Utils.stats_of l
  = Return (Utils.mkStats
              (Z.of_nat (length l))
              (Utils.py_sum l / inject_Z (Z.of_nat (length l)))
              (inject_Z (Z.of_nat (length (filter (fun r => Utils.Qlt_bool 0 r) l)))
               / inject_Z (Z.of_nat (length l))))%Q.
Proof.
  intro Hne. unfold Utils.stats_of, Utils.statistics_mean, Utils.true_div.
  destruct l as [|x l]; [congruence|]. cbn [obind].
  destruct (Z.eqb_spec (Z.of_nat (length (x :: l))) 0) as [H0|_];
    [simpl in H0; lia | reflexivity].
Qed.

Lemma stats_loop_nonempty (items : dict (list Q)) :
  (forall k l, In (k, l) items -> l <> []) ->
  exists stats : dict Utils.AgentStats,
    Utils.stats_loop items = Return stats
    /\ Forall2 (fun kl ks => fst ks = fst kl
                             /\ Utils.stats_of (snd kl) = Return (snd ks))
               items stats.
Proof.
  induction items as [|[k l] items IH]; intro Hne; simpl.
  - exists []. split; [reflexivity | constructor].
  - destruct IH as (stats & Hs & Hall).
    { intros k' l' Hin. apply (Hne k' l'). now right. }
    rewrite (stats_of_nonempty (Hne k l (or_introl eq_refl))). cbn [obind].
    rewrite Hs. cbn [obind]. eexists; split; [reflexivity|].
    constructor; [|exact Hall]. simpl. split; [reflexivity|].
    apply stats_of_nonempty. apply (Hne k l). now left.
Qed.

Lemma grouped_items (d : dict (list Q)) (eps : list Utils.EpisodeResult)
      (k : str) (l : list Q) :
  Utils.grouped d eps -> In (k, l) d ->
  l = Utils.rewards_against k eps /\ l <> []
  /\ existsb (fun ep => str_eqb (Utils.red_agent_type ep) k) eps = true.
Proof.
  intros [Hnd Hget] Hin.
  apply (In_dict_get _ _ _ Hnd) in Hin. rewrite Hget in Hin.
  destruct (existsb _ eps) eqn:Hex; [|discriminate].
  injection Hin as <-. repeat split. now apply rewards_against_some.
Qed.

Section SummaryFacts.

Variable sqrtQ : Q -> Q.

(** What [calculate_summary] returns for at least one episode. *)
Lemma calculate_summary_completed (eps : list Utils.EpisodeResult) :
  eps <> [] ->
  exists s : Utils.Summary,
    Utils.calculate_summary sqrtQ eps = Return (Utils.Completed s)
    /\ Utils.total_episodes s = Z.of_nat (length eps)
    /\ Utils.sum_avg_reward s
       = (Utils.py_sum (map Utils.total_reward eps)
          / inject_Z (Z.of_nat (length eps)))%Q
    /\ Utils.py_min (map Utils.total_reward eps) = Return (Utils.min_reward s)
    /\ Utils.py_max (map Utils.total_reward eps) = Return (Utils.max_reward s)
    /\ (length eps = 1 -> Utils.std_reward s = 0%Q)
    /\ Utils.total_duration s = Utils.py_sum (map Utils.duration eps)
    /\ Forall2 (fun kl ks => fst ks = fst kl
                             /\ Utils.stats_of (snd kl) = Return (snd ks))
               (Utils.group_rewards eps) (Utils.red_agent_breakdown s).
Proof.
  intro Hne. unfold Utils.calculate_summary.
  destruct (stats_loop_nonempty (Utils.group_rewards eps)) as (stats & Hs & Hall).
  { intros k l Hin.
    now destruct (@grouped_items _ _ _ _ (group_rewards_grouped eps) Hin)
      as (_ & H & _). }
  destruct eps as [|ep eps]; [congruence|].
  rewrite Hs. cbn [obind].
  destruct eps as [|ep2 eps].
  - eexists. split; [reflexivity|]. simpl. repeat split; try reflexivity.
    exact Hall.
  - eexists. split; [reflexivity|]. cbn -[Utils.group_rewards Utils.py_sum].
    rewrite !length_map.
    repeat split; try reflexivity; [simpl; lia | exact Hall].
Qed.

End SummaryFacts.

(** ** The breakdown by red agent *)

Lemma list_sum_map_add {A : Type} (f g : A -> nat) (l : list A) :
  list_sum (map (fun x => f x + g x) l) = list_sum (map f l) + list_sum (map g l).
Proof. induction l as [|x l IH]; simpl; lia. Qed.

Lemma indicator_sum (ks : list str) (t : str) :
  NoDup ks -> In t ks ->
  list_sum (map (fun k => if str_eqb t k then 1 else 0) ks) = 1.
Proof.
  induction 1 as [|k ks Hnotin Hnd IH]; simpl; [contradiction|].
  intros [->|Hin].
  - rewrite str_eqb_refl.
    assert (Hz : list_sum (map (fun k => if str_eqb t k then 1 else 0) ks) = 0).
    { clear IH Hnd. induction ks as [|k ks IHks]; simpl; [reflexivity|].
      destruct (str_eqb t k) eqn:Hk.
      - apply str_eqb_eq in Hk. subst k. exfalso. apply Hnotin. now left.
      - apply IHks. intro H. apply Hnotin. now right. }
    rewrite Hz. reflexivity.
  - destruct (str_eqb t k) eqn:Hk.
    + apply str_eqb_eq in Hk. subst k. contradiction.
    + now apply IH.
Qed.

(** Every episode is counted under exactly one key. *)
Lemma rewards_against_partition (ks : list str) (eps : list Utils.EpisodeResult) :
  NoDup ks ->
  (forall ep, In ep eps -> In (Utils.red_agent_type ep) ks) ->
  list_sum (map (fun k => length (Utils.rewards_against k eps)) ks) = length eps.
Proof.
  intros Hnd. induction eps as [|ep eps IH]; intro Hall.
  - unfold Utils.rewards_against. simpl. clear Hnd Hall.
    induction ks as [|k ks IHks]; simpl; [reflexivity | exact IHks].
  - rewrite (map_ext _ (fun k =>
               (if str_eqb (Utils.red_agent_type ep) k then 1 else 0)
               + length (Utils.rewards_against k eps))).
    + rewrite list_sum_map_add, indicator_sum, IH; simpl; auto.
      * intros ep' H. apply Hall. now right.
      * apply Hall. now left.
    + intro k. unfold Utils.rewards_against. simpl.
      now destruct (str_eqb (Utils.red_agent_type ep) k).
Qed.

Lemma existsb_type (k : str) (eps : list Utils.EpisodeResult) :
  existsb (fun ep => str_eqb (Utils.red_agent_type ep) k) eps = true
  <-> exists ep, In ep eps /\ Utils.red_agent_type ep = k.
Proof.
  rewrite existsb_exists. split; intros (ep & Hin & H); exists ep; split;
    try assumption; now apply str_eqb_eq.
Qed.

Lemma grouped_keys (d : dict (list Q)) (eps : list Utils.EpisodeResult) (k : str) :
  Utils.grouped d eps ->
  (In k (dict_keys d) <-> exists ep, In ep eps /\ Utils.red_agent_type ep = k).
Proof.
  intros [Hnd Hget]. rewrite <- existsb_type.
  specialize (Hget k).
  destruct (existsb _ eps) eqn:Hex.
  - split; [reflexivity|]. intros _.
    destruct (in_dec (list_eq_dec N.eq_dec) k (dict_keys d)) as [H|H]; [exact H|].
    apply dict_get_None_keys in H. congruence.
  - split; [|discriminate]. intro Hin.
    apply dict_get_None_keys in Hget. contradiction.
Qed.

(** The statistics that the second loop stores for the groups. *)
Lemma stats_of_groups (eps : list Utils.EpisodeResult)
      (items : dict (list Q)) (stats : dict Utils.AgentStats) :
  (forall k l, In (k, l) items -> l = Utils.rewards_against k eps /\ l <> []) ->
  Forall2 (fun kl ks => fst ks = fst kl
                        /\ Utils.stats_of (snd kl) = Return (snd ks))
          items stats ->
  dict_keys stats = dict_keys items
  /\ map (fun ks => Utils.count (snd ks)) stats
     = map (fun k => Z.of_nat (length (Utils.rewards_against k eps)))
           (dict_keys items)
  /\ forall k st,
       In (k, st) stats ->
       Utils.rewards_against k eps <> []
       /\ Utils.stats_of (Utils.rewards_against k eps) = Return st.
Proof.
  intros Hitems Hall. induction Hall as [|[k l] [k' st] items stats [Hk Hst] Hall IH].
  - repeat split; try reflexivity; contradiction.
  - simpl in Hk, Hst. subst k'.
    destruct (Hitems k l (or_introl eq_refl)) as [-> Hne].
    destruct IH as (IHk & IHc & IHs).
    { intros k0 l0 Hin. apply Hitems. now right. }
    split; [simpl; now f_equal|]. split.
    + simpl. f_equal; [|exact IHc].
      rewrite (stats_of_nonempty Hne) in Hst. injection Hst as <-. reflexivity.
    + intros k0 st0 [H|H].
      * injection H as <- <-. now split.
      * now apply IHs.
Qed.

Lemma Z_sum_of_nat (ns : list nat) :
  fold_right Z.add 0%Z (map Z.of_nat ns) = Z.of_nat (list_sum ns).
Proof. induction ns as [|n ns IH]; simpl; [reflexivity|]. rewrite IH. lia. Qed.

(** ** Least, greatest and mean reward *)

Lemma Qlt_bool_true (x y : Q) : Utils.Qlt_bool x y = true <-> (x < y)%Q.
Proof.
  unfold Utils.Qlt_bool. rewrite negb_true_iff.
  destruct (Qle_bool y x) eqn:H.
  - apply Qle_bool_iff in H. split; [discriminate|]. intro Hlt.
    exfalso. apply (Qlt_not_le _ _ Hlt H).
  - split; [|reflexivity]. intros _. apply Qnot_le_lt. intro Hle.
    apply Qle_bool_iff in Hle. congruence.
Qed.

Lemma Qlt_bool_false (x y : Q) : Utils.Qlt_bool x y = false <-> (y <= x)%Q.
Proof.
  unfold Utils.Qlt_bool. rewrite negb_false_iff. apply Qle_bool_iff.
Qed.

Lemma fold_min_le (rest : list Q) :
  forall a : Q,
    let m := fold_left (fun m y => if Utils.Qlt_bool y m then y else m) rest a in
    (m <= a)%Q /\ forall y, In y rest -> (m <= y)%Q.
Proof.
  induction rest as [|y rest IH]; intro a; simpl.
  - split; [apply Qle_refl | contradiction].
  - destruct (IH (if Utils.Qlt_bool y a then y else a)) as [Ha Hrest].
    destruct (Utils.Qlt_bool y a) eqn:Hya.
    + apply Qlt_bool_true in Hya. split.
      * eapply Qle_trans; [exact Ha | now apply Qlt_le_weak].
      * intros z [<-|Hz]; [exact Ha | now apply Hrest].
    + apply Qlt_bool_false in Hya. split; [exact Ha|].
      intros z [<-|Hz]; [eapply Qle_trans; eassumption | now apply Hrest].
Qed.

Lemma fold_max_ge (rest : list Q) :
  forall a : Q,
    let m := fold_left (fun m y => if Utils.Qlt_bool m y then y else m) rest a in
    (a <= m)%Q /\ forall y, In y rest -> (y <= m)%Q.
Proof.
  induction rest as [|y rest IH]; intro a; simpl.
  - split; [apply Qle_refl | contradiction].
  - destruct (IH (if Utils.Qlt_bool a y then y else a)) as [Ha Hrest].
    destruct (Utils.Qlt_bool a y) eqn:Hya.
    + apply Qlt_bool_true in Hya. split.
      * apply Qle_trans with y; [apply Qlt_le_weak; exact Hya | exact Ha].
      * intros z [<-|Hz]; [exact Ha | now apply Hrest].
    + apply Qlt_bool_false in Hya. split; [exact Ha|].
      intros z [<-|Hz]; [eapply Qle_trans; eassumption | now apply Hrest].
Qed.

Lemma py_min_least (xs : list Q) (m : Q) :
  Utils.py_min xs = Return m -> forall x, In x xs -> (m <= x)%Q.
Proof.
  destruct xs as [|a rest]; simpl; [discriminate|].
  intro H. injection H as <-. destruct (fold_min_le rest a) as [Ha Hrest].
  intros x [<-|Hx]; [exact Ha | now apply Hrest].
Qed.

Lemma py_max_greatest (xs : list Q) (m : Q) :
  Utils.py_max xs = Return m -> forall x, In x xs -> (x <= m)%Q.
Proof.
  destruct xs as [|a rest]; simpl; [discriminate|].
  intro H. injection H as <-. destruct (fold_max_ge rest a) as [Ha Hrest].
  intros x [<-|Hx]; [exact Ha | now apply Hrest].
Qed.

Lemma py_sum_bounds (xs : list Q) (lo hi : Q) :
  (forall x, In x xs -> lo <= x /\ x <= hi)%Q ->
  (inject_Z (Z.of_nat (length xs)) * lo <= Utils.py_sum xs
   /\ Utils.py_sum xs <= inject_Z (Z.of_nat (length xs)) * hi)%Q.
Proof.
  unfold Utils.py_sum. induction xs as [|x xs IH]; intro H.
  - simpl. split; apply Qle_lteq; right; ring.
  - cbn [fold_left length]. rewrite (Qsum_from xs (0 + x)%Q).
    rewrite Nat2Z.inj_succ. unfold Z.succ. rewrite inject_Z_plus.
    destruct IH as [IHlo IHhi]; [intros y Hy; apply H; now right|].
    destruct (H x (or_introl eq_refl)) as [Hlo Hhi].
    change (inject_Z 1) with 1%Q.
    set (n := inject_Z (Z.of_nat (length xs))) in *.
    set (s := fold_left Qplus xs 0%Q) in *.
    split; nra.
Qed.

Lemma mean_between (xs : list Q) (lo hi : Q) :
  xs <> [] ->
  (forall x, In x xs -> lo <= x /\ x <= hi)%Q ->
  (lo <= Utils.py_sum xs / inject_Z (Z.of_nat (length xs))
   /\ Utils.py_sum xs / inject_Z (Z.of_nat (length xs)) <= hi)%Q.
Proof.
  intros Hne H. destruct (py_sum_bounds xs H) as [Hlo Hhi].
  assert (Hn : (0 < inject_Z (Z.of_nat (length xs)))%Q).
  { destruct xs; [congruence|]. simpl length.
    rewrite Nat2Z.inj_succ. unfold Qlt; simpl. lia. }
  split.
  - apply Qle_shift_div_l; [exact Hn|]. now rewrite Qmult_comm.
  - apply Qle_shift_div_r; [exact Hn|]. now rewrite Qmult_comm.
Qed.

Lemma success_rate_bounds (l : list Q) (st : Utils.AgentStats) :
  l <> [] ->
  Utils.stats_of l = Return st ->
  (0 <= Utils.success_rate st /\ Utils.success_rate st <= 1)%Q.
Proof.
  intros Hne H. rewrite (stats_of_nonempty Hne) in H. injection H as <-. simpl.
  assert (Hn : (0 < inject_Z (Z.of_nat (length l)))%Q).
  { destruct l; [congruence|]. simpl length.
    rewrite Nat2Z.inj_succ. unfold Qlt; simpl. lia. }
  pose proof (filter_length_le (fun r => Utils.Qlt_bool 0 r) l) as Hle.
  split.
  - apply Qle_shift_div_l; [exact Hn|]. rewrite Qmult_0_l.
    unfold Qle; simpl. lia.
  - apply Qle_shift_div_r; [exact Hn|]. rewrite Qmult_1_l.
    rewrite <- Zle_Qle. lia.
Qed.

(** ** [calculate_summary] *)

Section SummaryTheorems.

Variable sqrtQ : Q -> Q.


(** The breakdown by red agent partitions the episodes: it has one key
    for each type of red agent that occurs, each once; the count of a
    key is the number of episodes against that type, at least 1; and the
    counts add up to [total_episodes], the number of episodes. *)
Theorem breakdown_partitions_the_episodes (eps : list Utils.EpisodeResult) :
  eps <> [] ->
  exists s : Utils.Summary,
    Utils.calculate_summary sqrtQ eps = Return (Utils.Completed s)
    /\ NoDup (dict_keys (Utils.red_agent_breakdown s))
    /\ (forall k, In k (dict_keys (Utils.red_agent_breakdown s))
                  <-> exists ep, In ep eps /\ Utils.red_agent_type ep = k)
    /\ (forall k st,
          In (k, st) (Utils.red_agent_breakdown s) ->
          Utils.count st = Z.of_nat (length (Utils.rewards_against k eps))
          /\ (1 <= Utils.count st)%Z)
    /\ fold_right Z.add 0%Z
                  (map (fun ks => Utils.count (snd ks)) (Utils.red_agent_breakdown s))
       = Utils.total_episodes s
    /\ Utils.total_episodes s = Z.of_nat (length eps).
Proof.
  intro Hne.
  destruct (@calculate_summary_completed sqrtQ eps Hne)
    as (s & Hs & Htotal & _ & _ & _ & _ & _ & Hall).
  pose proof (group_rewards_grouped eps) as Hg.
  destruct (@stats_of_groups eps _ _
              (fun k l Hin => let '(conj H1 (conj H2 _)) :=
                                @grouped_items _ _ k l Hg Hin in conj H1 H2)
              Hall)
    as (Hkeys & Hcounts & Hstats).
  exists s. split; [exact Hs|]. rewrite Hkeys.
  split; [apply Hg|]. split; [intro k; now apply grouped_keys|].
  split; [|split; [|exact Htotal]].
  - intros k st Hin. destruct (Hstats k st Hin) as [Hnonempty Hst].
    rewrite (stats_of_nonempty Hnonempty) in Hst. injection Hst as <-. simpl.
    split; [reflexivity|].
    destruct (Utils.rewards_against k eps); [congruence | simpl; lia].
  - rewrite Hcounts, Htotal.
    rewrite <- (map_map (fun k => length (Utils.rewards_against k eps)) Z.of_nat).
    rewrite Z_sum_of_nat. f_equal.
    apply rewards_against_partition; [apply Hg|].
    intros ep Hin. apply (grouped_keys _ Hg). now exists ep.
Qed.

(** On rational rewards the mean reward of the summary lies between its
    least and its greatest reward, which bound the reward of every
    episode; every success rate of the breakdown lies between 0 and 1;
    and for a single episode the standard deviation is 0, not an error. *)
Theorem summary_rewards_are_ordered (eps : list Utils.EpisodeResult) :
  eps <> [] ->
  exists s : Utils.Summary,
    Utils.calculate_summary sqrtQ eps = Return (Utils.Completed s)
    /\ (Utils.min_reward s <= Utils.sum_avg_reward s)%Q
    /\ (Utils.sum_avg_reward s <= Utils.max_reward s)%Q
    /\ (forall ep, In ep eps ->
                   Utils.min_reward s <= Utils.total_reward ep
                   /\ Utils.total_reward ep <= Utils.max_reward s)%Q
    /\ (forall k st, In (k, st) (Utils.red_agent_breakdown s) ->
                     0 <= Utils.success_rate st /\ Utils.success_rate st <= 1)%Q
    /\ (length eps = 1 -> Utils.std_reward s = 0%Q).
Proof.
  intro Hne.
  destruct (@calculate_summary_completed sqrtQ eps Hne)
    as (s & Hs & _ & Havg & Hmin & Hmax & Hstd & _ & Hall).
  pose proof (group_rewards_grouped eps) as Hg.
  destruct (@stats_of_groups eps _ _
              (fun k l Hin => let '(conj H1 (conj H2 _)) :=
                                @grouped_items _ _ k l Hg Hin in conj H1 H2)
              Hall)
    as (_ & _ & Hstats).
  assert (Hbound : forall x, In x (map Utils.total_reward eps) ->
                             (Utils.min_reward s <= x /\ x <= Utils.max_reward s)%Q).
  { intros x Hx. split;
      [now apply (py_min_least _ Hmin) | now apply (py_max_greatest _ Hmax)]. }
  assert (Hne' : map Utils.total_reward eps <> [])
    by (destruct eps; [congruence | discriminate]).
  destruct (mean_between Hne' Hbound) as [Hlo Hhi].
  rewrite length_map in Hlo, Hhi.
  exists s. split; [exact Hs|]. rewrite Havg.
  split; [exact Hlo|]. split; [exact Hhi|]. split; [|split; [|exact Hstd]].
  - intros ep Hin. apply Hbound. now apply in_map.
  - intros k st Hin. destruct (Hstats k st Hin) as [Hnonempty Hst].
    exact (success_rate_bounds Hnonempty Hst).
Qed.

End SummaryTheorems.

Lemma breakdown_partitions_the_episodes_witness :
  exists s : Utils.Summary,
    Utils.calculate_summary
      Toy.approx_sqrt
      [Utils.mkEpisode 0 (-13 # 2) 30 [py_str "Analyze User0"] (py_str "completed")
                       (3 # 2) (py_str "B_lineAgent");
       Utils.mkEpisode 1 3 30 [] (py_str "completed") 2 (py_str "RedMeanderAgent");
       Utils.mkEpisode 2 (-1) 30 [] (py_str "completed") 1 (py_str "B_lineAgent")]
    = Return (Utils.Completed s)
    /\ dict_keys (Utils.red_agent_breakdown s)
       = [py_str "B_lineAgent"; py_str "RedMeanderAgent"]
    /\ Utils.total_episodes s = 3%Z.
Proof.
  destruct (@breakdown_partitions_the_episodes
              Toy.approx_sqrt
              [Utils.mkEpisode 0 (-13 # 2) 30 [py_str "Analyze User0"] (py_str "completed")
                               (3 # 2) (py_str "B_lineAgent");
               Utils.mkEpisode 1 3 30 [] (py_str "completed") 2 (py_str "RedMeanderAgent");
               Utils.mkEpisode 2 (-1) 30 [] (py_str "completed") 1 (py_str "B_lineAgent")])
    as (s & Hs & _ & _ & _ & _ & Htotal).
  - discriminate.
  - exists s. split; [exact Hs|]. split; [|exact Htotal].
    vm_compute in Hs. injection Hs as <-. vm_compute. reflexivity.
Defined.

Lemma summary_rewards_are_ordered_witness :
  exists s : Utils.Summary,
    Utils.calculate_summary
      Toy.approx_sqrt
      [Utils.mkEpisode 0 (-13 # 2) 30 [py_str "Analyze User0"] (py_str "completed")
                       (3 # 2) (py_str "B_lineAgent");
       Utils.mkEpisode 1 3 30 [] (py_str "completed") 2 (py_str "RedMeanderAgent");
       Utils.mkEpisode 2 (-1) 30 [] (py_str "completed") 1 (py_str "B_lineAgent")]
    = Return (Utils.Completed s)
    /\ (Utils.min_reward s <= Utils.sum_avg_reward s)%Q
    /\ (Utils.sum_avg_reward s <= Utils.max_reward s)%Q.
Proof.
  destruct (@summary_rewards_are_ordered
              Toy.approx_sqrt
              [Utils.mkEpisode 0 (-13 # 2) 30 [py_str "Analyze User0"] (py_str "completed")
                               (3 # 2) (py_str "B_lineAgent");
               Utils.mkEpisode 1 3 30 [] (py_str "completed") 2 (py_str "RedMeanderAgent");
               Utils.mkEpisode 2 (-1) 30 [] (py_str "completed") 1 (py_str "B_lineAgent")])
    as (s & Hs & Hlo & Hhi & _).
  - discriminate.
  - exists s. split; [exact Hs|]. split; [exact Hlo | exact Hhi].
Defined.
